(** * SCADA mock dashboard (App.tsx): telemetry simulation and alarm engine

    A shallow embedding of the stateful core of [src/App.tsx]: the helpers
    [pushSeries] and [genSeed], the state cells of the [App] component, the
    2-second interval callback, the memoised KPI computation and the event
    handlers of the setpoint, equipment and history controls.

    Conventions of the embedding.
    - JavaScript numbers are the type [num]: [NaN], the two infinities, and
      finite values carried as exact rationals.  Binary64 rounding error,
      overflow and the sign of zero are not part of the model.
    - [Math.random()] reads the next element of an explicit source of draws
      and advances it; code that draws runs in the state monad [M].
    - [new Date().toLocaleTimeString()] is an input of the tick.
    - Every [useState] cell is a field of [State]; a handler is a function on
      [State]; the render that follows a state change is [render]. *)

From Stdlib Require Import String Ascii Bool Arith ZArith QArith Qround Qabs List.
From Stdlib Require Import Lia Lqa DecimalString.
Import ListNotations.

Local Open Scope Q_scope.

(** ** JavaScript numbers *)

Inductive num : Type :=
| NaN : num
| PInf : num
| NInf : num
| Fin (q : Q) : num.

Definition isFinite (x : num) : bool :=
  match x with Fin _ => true | _ => false end.

Definition Qis_zero (q : Q) : bool := Qeq_bool q 0.
Definition Qis_neg (q : Q) : bool := negb (Qle_bool 0 q).

Definition inf_of_sign (negative : bool) : num := if negative then NInf else PInf.

Definition neg (x : num) : num :=
  match x with
  | NaN => NaN
  | PInf => NInf
  | NInf => PInf
  | Fin q => Fin (- q)
  end.

(** [x + y] *)
Definition add (x y : num) : num :=
  match x, y with
  | NaN, _ | _, NaN => NaN
  | PInf, NInf | NInf, PInf => NaN
  | PInf, _ | _, PInf => PInf
  | NInf, _ | _, NInf => NInf
  | Fin a, Fin b => Fin (a + b)
  end.

(** [x - y] *)
Definition sub (x y : num) : num := add x (neg y).

(** [x * y] *)
Definition mul (x y : num) : num :=
  match x, y with
  | NaN, _ | _, NaN => NaN
  | Fin a, Fin b => Fin (a * b)
  | Fin a, PInf | PInf, Fin a =>
      if Qis_zero a then NaN else inf_of_sign (Qis_neg a)
  | Fin a, NInf | NInf, Fin a =>
      if Qis_zero a then NaN else inf_of_sign (negb (Qis_neg a))
  | PInf, PInf | NInf, NInf => PInf
  | PInf, NInf | NInf, PInf => NInf
  end.

(** [x / y] *)
Definition div (x y : num) : num :=
  match x, y with
  | NaN, _ | _, NaN => NaN
  | Fin a, Fin b =>
      if Qis_zero b
      then (if Qis_zero a then NaN else inf_of_sign (Qis_neg a))
      else Fin (a / b)
  | Fin _, PInf | Fin _, NInf => Fin 0
  | PInf, Fin b => inf_of_sign (Qis_neg b)
  | NInf, Fin b => inf_of_sign (negb (Qis_neg b))
  | _, _ => NaN
  end.

(** [x < y]: false as soon as one side is NaN. *)
Definition lt (x y : num) : bool :=
  match x, y with
  | NaN, _ | _, NaN => false
  | _, NInf => false
  | NInf, _ => true
  | PInf, _ => false
  | Fin _, PInf => true
  | Fin a, Fin b => negb (Qle_bool b a)
  end.

(** [x > y] *)
Definition gt (x y : num) : bool := lt y x.

(** [Math.max(x, y)] and [Math.min(x, y)]: NaN if either argument is. *)
Definition Math_max (x y : num) : num :=
  match x, y with
  | NaN, _ | _, NaN => NaN
  | _, _ => if lt x y then y else x
  end.

Definition Math_min (x y : num) : num :=
  match x, y with
  | NaN, _ | _, NaN => NaN
  | _, _ => if lt y x then y else x
  end.

(** [Object.is] on numbers, the comparison React applies to hook
    dependencies. *)
Definition Object_is (x y : num) : bool :=
  match x, y with
  | NaN, NaN | PInf, PInf | NInf, NInf => true
  | Fin a, Fin b => Qeq_bool a b
  | _, _ => false
  end.

(** [Number(x.toFixed(2))].  [toFixed] prints a non-finite number, and one
    whose magnitude reaches 10^21, as [String(x)], which [Number] reads back;
    otherwise it picks the integer [n] with [n / 100] closest to the
    magnitude, the larger one on a tie, and restores the sign. *)
Definition round2_mag (a : Q) : Q := Qred (Qfloor (a * 100 + (1 # 2)) # 100).

Definition round2 (x : num) : num :=
  match x with
  | Fin q =>
      if Qle_bool (10 ^ 21) (Qabs q) then Fin q
      else if Qis_neg q then Fin (- round2_mag (- q))
      else Fin (round2_mag q)
  | _ => x
  end.

(** ** Arrays *)

(** The index arithmetic of [Array.prototype.slice]: a negative index counts
    from the end, and both ends are clamped to the array. *)
Definition rel_index (len i : Z) : Z :=
  if (i <? 0)%Z then Z.max (len + i) 0 else Z.min i len.

(** [l.slice(start)] is [slice l start None]; [l.slice(start, e)] is
    [slice l start (Some e)]. *)
Definition slice {A : Type} (l : list A) (start : Z) (end_ : option Z) : list A :=
  let len := Z.of_nat (length l) in
  let k := rel_index len start in
  let final := match end_ with
               | None => len
               | Some e => rel_index len e
               end in
  firstn (Z.to_nat (final - k)) (skipn (Z.to_nat k) l).

(** [l.push(x)] *)
Definition push {A : Type} (l : list A) (x : A) : list A := l ++ [x].

(** ** Types *)

Module Point.
Record t : Type := mk { time : string; value : num }.
End Point.

Module Alarm.
Record t : Type := mk { type : string; value : num; time : string }.
End Alarm.

Record Setpoints : Type := mkSetpoints {
  tempHigh : num;
  flowLow : num;
  pressHigh : num;
  levelLow : num;
  levelHigh : num
}.

Record Kpis : Type := mkKpis {
  dt : num;
  efficiency : num;
  cop : num
}.

(** ** The random source *)

Record Rng : Type := mkRng { draws : nat -> Q; pos : nat }.

(** Every draw of [Math.random()] lies in [0, 1). *)
Definition unit_draws (g : Rng) : Prop := forall i, 0 <= draws g i < 1.

Definition M (A : Type) : Type := Rng -> A * Rng.

Definition ret {A : Type} (a : A) : M A := fun g => (a, g).

Definition bind {A B : Type} (m : M A) (k : A -> M B) : M B :=
  fun g => let (a, g') := m g in k a g'.

Notation "x <- m ;; k" := (bind m (fun x => k))
  (at level 61, m at next level, right associativity).

Definition Math_random : M num :=
  fun g => (Fin (draws g (pos g)), mkRng (draws g) (S (pos g))).

(** ** Helpers *)

(** The updater that [pushSeries] hands to the setter of a series:
    [(s) => [...s.slice(-max + 1), point]]. *)
Definition pushSeries (s : list Point.t) (point : Point.t) (max : Z) : list Point.t :=
  slice s (- max + 1) None ++ [point].

(** The default of the parameter [max]. *)
Definition max_default : Z := 40.

(** The template literal [`${i}`] on a loop counter. *)
Definition string_of_index (i : nat) : string :=
  NilEmpty.string_of_uint (Nat.to_uint i).

(** One seed value: [Number((avg + (Math.random() - 0.5) * vari).toFixed(2))]. *)
Definition seed_value (avg vari r : num) : num :=
  round2 (add avg (mul (sub r (Fin 0.5)) vari)).

(** The loop of [genSeed], [remaining] iterations before [i] reaches [n]. *)
Fixpoint genSeed_loop (remaining i : nat) (avg vari : num) (out : list Point.t)
  : M (list Point.t) :=
  match remaining with
  | O => ret out
  | S remaining' =>
      r <- Math_random ;;
      genSeed_loop remaining' (S i) avg vari
        (push out (Point.mk (string_of_index i) (seed_value avg vari r)))
  end.

Definition genSeed (n : nat) (avg vari : num) : M (list Point.t) :=
  genSeed_loop n 0 avg vari [].

(** ** The component [App] *)

(** The cells of [useState], in declaration order, followed by the value and
    the dependencies remembered by [useMemo] for [kpis]. *)
Record State : Type := mkState {
  tempSeries : list Point.t;
  flowSeries : list Point.t;
  pressSeries : list Point.t;
  levelSeries : list Point.t;
  tIn : num;
  tOut : num;
  flow : num;
  press : num;
  level : num;
  pumpOn : bool;
  fanOn : bool;
  ethConnected : bool;
  modbusConnected : bool;
  alarms : list Alarm.t;
  setpoints : Setpoints;
  kpis : Kpis;
  kpisDeps : list num
}.

Definition initialSetpoints : Setpoints :=
  mkSetpoints (Fin 78) (Fin 130) (Fin 2.4) (Fin 20) (Fin 90).

(** The callback of [useMemo]. *)
Definition computeKpis (tIn tOut : num) : M Kpis :=
  let dt := round2 (sub tIn tOut) in
  r <- Math_random ;;
  let efficiency :=
    Math_max (Fin 0.5) (Math_min (Fin 0.98) (sub (Fin 0.85) (mul r (Fin 0.12)))) in
  r' <- Math_random ;;
  let cop := round2 (add (Fin 2.5) (mul r' (Fin 1.6))) in
  ret (mkKpis dt efficiency cop).

(** React's comparison of two dependency arrays. *)
Fixpoint areHookInputsEqual (next prev : list num) : bool :=
  match next, prev with
  | x :: next', y :: prev' => Object_is x y && areHookInputsEqual next' prev'
  | _, _ => true
  end.

Definition kpiDeps (st : State) : list num :=
  [tIn st; tOut st; flow st; press st; level st].

(** A render after the first one: [useState] returns the cells, [useMemo]
    reruns its callback only when a dependency changed. *)
Definition render (st : State) : M State :=
  if areHookInputsEqual (kpiDeps st) (kpisDeps st) then ret st
  else
    k <- computeKpis (tIn st) (tOut st) ;;
    ret {| tempSeries := tempSeries st; flowSeries := flowSeries st;
           pressSeries := pressSeries st; levelSeries := levelSeries st;
           tIn := tIn st; tOut := tOut st; flow := flow st;
           press := press st; level := level st;
           pumpOn := pumpOn st; fanOn := fanOn st;
           ethConnected := ethConnected st;
           modbusConnected := modbusConnected st;
           alarms := alarms st; setpoints := setpoints st;
           kpis := k; kpisDeps := kpiDeps st |}.

(** The first render: the lazy initialisers of the four series run in hook
    order, then the callback of [useMemo]. *)
Definition mount : M State :=
  temp0 <- genSeed 24 (Fin 30) (Fin 6) ;;
  flow0 <- genSeed 24 (Fin 145) (Fin 30) ;;
  press0 <- genSeed 24 (Fin 2.1) (Fin 0.6) ;;
  level0 <- genSeed 24 (Fin 60) (Fin 18) ;;
  k <- computeKpis (Fin 72) (Fin 30) ;;
  ret {| tempSeries := temp0; flowSeries := flow0;
         pressSeries := press0; levelSeries := level0;
         tIn := Fin 72; tOut := Fin 30; flow := Fin 150;
         press := Fin 2.1; level := Fin 60;
         pumpOn := true; fanOn := true;
         ethConnected := true; modbusConnected := false;
         alarms := []; setpoints := initialSetpoints;
         kpis := k;
         kpisDeps := [Fin 72; Fin 30; Fin 150; Fin 2.1; Fin 60] |}.

(** *** The interval callback *)

(** The values drawn at the top of the callback. *)
Record Sample : Type := mkSample {
  newTIn : num;
  newTOut : num;
  newTempAvg : num;
  newFlow : num;
  newPress : num;
  newLevel : num
}.

Definition sample : M Sample :=
  r1 <- Math_random ;;
  let newTIn := add (Fin 70) (mul r1 (Fin 15)) in
  r2 <- Math_random ;;
  let newTOut := Math_max (Fin 15) (sub newTIn (add (Fin 8) (mul r2 (Fin 20)))) in
  let newTempAvg := round2 (div (add newTIn newTOut) (Fin 2)) in
  r3 <- Math_random ;;
  let newFlow := round2 (add (Fin 120) (mul r3 (Fin 60))) in
  r4 <- Math_random ;;
  let newPress := round2 (add (Fin 1.6) (mul r4 (Fin 1.2))) in
  r5 <- Math_random ;;
  let newLevel := round2 (add (Fin 30) (mul r5 (Fin 55))) in
  ret (mkSample newTIn newTOut newTempAvg newFlow newPress newLevel).

(** The alarm logic: five [if]s, each pushing onto [newAlarms]. *)
Definition newAlarms (sp : Setpoints) (time : string) (s : Sample) : list Alarm.t :=
  let a0 := [] in
  let a1 := if gt (newTempAvg s) (tempHigh sp)
            then push a0 (Alarm.mk "Alta Temperatura" (round2 (newTempAvg s)) time)
            else a0 in
  let a2 := if lt (newFlow s) (flowLow sp)
            then push a1 (Alarm.mk "Baixa Vazão" (round2 (newFlow s)) time)
            else a1 in
  let a3 := if gt (newPress s) (pressHigh sp)
            then push a2 (Alarm.mk "Pressão Elevada" (round2 (newPress s)) time)
            else a2 in
  let a4 := if lt (newLevel s) (levelLow sp)
            then push a3 (Alarm.mk "Nível Baixo" (round2 (newLevel s)) time)
            else a3 in
  let a5 := if gt (newLevel s) (levelHigh sp)
            then push a4 (Alarm.mk "Nível Alto" (round2 (newLevel s)) time)
            else a4 in
  a5.

(** Truthiness of [newAlarms.length]. *)
Definition truthy_length {A : Type} (l : list A) : bool :=
  negb (Nat.eqb (List.length l) 0).

(** The callback handed to [setInterval]; [time] is the value of
    [nowLabel()].  The effect is re-established whenever [setpoints]
    changes, so the callback reads the current setpoints. *)
Definition tick (time : string) (st : State) : M State :=
  s <- sample ;;
  let fired := newAlarms (setpoints st) time s in
  ret {| tempSeries :=
           pushSeries (tempSeries st) (Point.mk time (newTempAvg s)) max_default;
         flowSeries :=
           pushSeries (flowSeries st) (Point.mk time (newFlow s)) max_default;
         pressSeries :=
           pushSeries (pressSeries st) (Point.mk time (newPress s)) max_default;
         levelSeries :=
           pushSeries (levelSeries st) (Point.mk time (newLevel s)) max_default;
         tIn := round2 (newTIn s); tOut := round2 (newTOut s);
         flow := newFlow s; press := newPress s; level := newLevel s;
         pumpOn := pumpOn st; fanOn := fanOn st;
         ethConnected := ethConnected st;
         modbusConnected := modbusConnected st;
         alarms :=
           if truthy_length fired
           then slice (fired ++ alarms st) 0 (Some 40%Z)
           else slice (alarms st) 0 (Some 40%Z);
         setpoints := setpoints st;
         kpis := kpis st; kpisDeps := kpisDeps st |}.

(** *** The handlers *)

Definition with_flags (st : State) (pump fan eth modbus : bool) : State :=
  {| tempSeries := tempSeries st; flowSeries := flowSeries st;
     pressSeries := pressSeries st; levelSeries := levelSeries st;
     tIn := tIn st; tOut := tOut st; flow := flow st;
     press := press st; level := level st;
     pumpOn := pump; fanOn := fan;
     ethConnected := eth; modbusConnected := modbus;
     alarms := alarms st; setpoints := setpoints st;
     kpis := kpis st; kpisDeps := kpisDeps st |}.

Definition with_setpoints (st : State) (sp : Setpoints) : State :=
  {| tempSeries := tempSeries st; flowSeries := flowSeries st;
     pressSeries := pressSeries st; levelSeries := levelSeries st;
     tIn := tIn st; tOut := tOut st; flow := flow st;
     press := press st; level := level st;
     pumpOn := pumpOn st; fanOn := fanOn st;
     ethConnected := ethConnected st;
     modbusConnected := modbusConnected st;
     alarms := alarms st; setpoints := sp;
     kpis := kpis st; kpisDeps := kpisDeps st |}.

(** [setPumpOn((s) => !s)] and [setFanOn((s) => !s)]. *)
Definition togglePump (st : State) : State :=
  with_flags st (negb (pumpOn st)) (fanOn st) (ethConnected st) (modbusConnected st).

Definition toggleFan (st : State) : State :=
  with_flags st (pumpOn st) (negb (fanOn st)) (ethConnected st) (modbusConnected st).

(** The buttons "Simular EtherNet/IP" and "Simular Modbus". *)
Definition simulateEth (st : State) : State :=
  with_flags st (pumpOn st) (fanOn st) true false.

Definition simulateModbus (st : State) : State :=
  with_flags st (pumpOn st) (fanOn st) false true.

(** The five setpoint fields. *)
Inductive Field : Type :=
| TempHigh | FlowLow | PressHigh | LevelLow | LevelHigh.

(** What [e.target.value] holds for an [<input type="number">]: the empty
    string when the text in the field is not a number, otherwise the text
    of a finite numeric literal. *)
Inductive InputValue : Type :=
| Blank : InputValue
| Literal (q : Q) : InputValue.

(** [Number(e.target.value)]: the empty string converts to 0. *)
Definition Number_value (value : InputValue) : num :=
  match value with
  | Blank => Fin 0
  | Literal q => Fin q
  end.

(** The updater of an [onChange] handler, [(s) => ({ ...s, field: v })],
    where [v] is the value of [Number(e.target.value)]. *)
Definition setField (f : Field) (v : num) (s : Setpoints) : Setpoints :=
  match f with
  | TempHigh => mkSetpoints v (flowLow s) (pressHigh s) (levelLow s) (levelHigh s)
  | FlowLow => mkSetpoints (tempHigh s) v (pressHigh s) (levelLow s) (levelHigh s)
  | PressHigh => mkSetpoints (tempHigh s) (flowLow s) v (levelLow s) (levelHigh s)
  | LevelLow => mkSetpoints (tempHigh s) (flowLow s) (pressHigh s) v (levelHigh s)
  | LevelHigh => mkSetpoints (tempHigh s) (flowLow s) (pressHigh s) (levelLow s) v
  end.

Definition getField (f : Field) (s : Setpoints) : num :=
  match f with
  | TempHigh => tempHigh s
  | FlowLow => flowLow s
  | PressHigh => pressHigh s
  | LevelLow => levelLow s
  | LevelHigh => levelHigh s
  end.

Definition onChange (f : Field) (value : InputValue) (st : State) : State :=
  with_setpoints st (setField f (Number_value value) (setpoints st)).

(** The button "Aplicar": [setAlarms([])], then an [alert]. *)
Definition applySetpoints (st : State) : State :=
  {| tempSeries := tempSeries st; flowSeries := flowSeries st;
     pressSeries := pressSeries st; levelSeries := levelSeries st;
     tIn := tIn st; tOut := tOut st; flow := flow st;
     press := press st; level := level st;
     pumpOn := pumpOn st; fanOn := fanOn st;
     ethConnected := ethConnected st;
     modbusConnected := modbusConnected st;
     alarms := []; setpoints := setpoints st;
     kpis := kpis st; kpisDeps := kpisDeps st |}.

(** The button "Resetar Histórico". *)
Definition resetHistory (st : State) : M State :=
  temp0 <- genSeed 24 (Fin 30) (Fin 6) ;;
  flow0 <- genSeed 24 (Fin 145) (Fin 30) ;;
  press0 <- genSeed 24 (Fin 2.1) (Fin 0.6) ;;
  level0 <- genSeed 24 (Fin 60) (Fin 18) ;;
  ret {| tempSeries := temp0; flowSeries := flow0;
         pressSeries := press0; levelSeries := level0;
         tIn := tIn st; tOut := tOut st; flow := flow st;
         press := press st; level := level st;
         pumpOn := pumpOn st; fanOn := fanOn st;
         ethConnected := ethConnected st;
         modbusConnected := modbusConnected st;
         alarms := alarms st; setpoints := setpoints st;
         kpis := kpis st; kpisDeps := kpisDeps st |}.

(** *** Events *)

Inductive Event : Type :=
| Tick (time : string)
| TogglePump
| ToggleFan
| SimulateEth
| SimulateModbus
| Change (f : Field) (value : InputValue)
| Apply
| ResetHistory.

Definition handle (ev : Event) (st : State) : M State :=
  match ev with
  | Tick time => tick time st
  | TogglePump => ret (togglePump st)
  | ToggleFan => ret (toggleFan st)
  | SimulateEth => ret (simulateEth st)
  | SimulateModbus => ret (simulateModbus st)
  | Change f value => ret (onChange f value st)
  | Apply => ret (applySetpoints st)
  | ResetHistory => resetHistory st
  end.

(** An event runs its handler; the state change is followed by a render. *)
Definition step (ev : Event) (st : State) : M State :=
  st' <- handle ev st ;; render st'.

Fixpoint run (evs : list Event) (st : State) : M State :=
  match evs with
  | [] => ret st
  | ev :: evs' => st' <- step ev st ;; run evs' st'
  end.

(** The states the component can be in: mounted from some source of draws,
    then driven by events. *)
Inductive reachable : State -> Rng -> Prop :=
| reach_mount g : reachable (fst (mount g)) (snd (mount g))
| reach_step ev st g :
    reachable st g -> reachable (fst (step ev st g)) (snd (step ev st g)).


(** * Vocabulary of the properties *)

(** A sequence of pushes onto one buffer, oldest first. *)
Definition pushAll (s : list Point.t) (points : list Point.t) : list Point.t :=
  fold_left (fun acc point => pushSeries acc point max_default) points s.

(** The source after [n] further draws. *)
Definition advance (n : nat) (g : Rng) : Rng := mkRng (draws g) (pos g + n).

(** The [j]-th point of a seed generated from [g]. *)
Definition seed_point (avg vari : num) (g : Rng) (j : nat) : Point.t :=
  Point.mk (string_of_index j) (seed_value avg vari (Fin (draws g (pos g + j)))).

(** Projections of the state used to say what an operation leaves alone. *)
Definition series (st : State) : list (list Point.t) :=
  [tempSeries st; flowSeries st; pressSeries st; levelSeries st].

Definition flags (st : State) : list bool :=
  [pumpOn st; fanOn st; ethConnected st; modbusConnected st].

(** The memo of [kpis] is up to date: a further render changes nothing. *)
Definition settled (st : State) : Prop :=
  areHookInputsEqual (kpiDeps st) (kpisDeps st) = true.

(** The rule table of the specification: condition, alarm kind, triggering
    reading, in the order rule 1 to rule 5. *)
Record Rule : Type := mkRule { fires : bool; kind : string; reading : num }.

Definition rule_table (sp : Setpoints) (s : Sample) : list Rule :=
  [ mkRule (gt (newTempAvg s) (tempHigh sp)) "Alta Temperatura" (newTempAvg s);
    mkRule (lt (newFlow s) (flowLow sp)) "Baixa Vazão" (newFlow s);
    mkRule (gt (newPress s) (pressHigh sp)) "Pressão Elevada" (newPress s);
    mkRule (lt (newLevel s) (levelLow sp)) "Nível Baixo" (newLevel s);
    mkRule (gt (newLevel s) (levelHigh sp)) "Nível Alto" (newLevel s) ].

(** One alarm per rule that fires, in table order, carrying the reading
    rounded to 2 decimals and the time of the tick. *)
Definition alarms_of_rules (time : string) (rules : list Rule) : list Alarm.t :=
  map (fun r => Alarm.mk (kind r) (round2 (reading r)) time) (filter fires rules).

(** Draws under which a tick reads tempAvg = 80, flow = 140, press = 2.0
    and level = 50. *)
Definition example_draws : Rng :=
  mkRng (fun i => match i with
                  | 0%nat => 29 # 30
                  | 1%nat => 1 # 20
                  | 2%nat => 1 # 3
                  | 3%nat => 1 # 3
                  | 4%nat => 4 # 11
                  | _ => 0
                  end) 0.

(** The four seeds of [mount] and of [resetHistory], each drawn after the
    previous one. *)
Definition seeds (g : Rng) : list (list Point.t) :=
  [ fst (genSeed 24 (Fin 30) (Fin 6) g);
    fst (genSeed 24 (Fin 145) (Fin 30) (advance 24 g));
    fst (genSeed 24 (Fin 2.1) (Fin 0.6) (advance 48 g));
    fst (genSeed 24 (Fin 60) (Fin 18) (advance 72 g)) ].

(** The state with its four flags blanked: everything the simulation reads
    or writes. *)
Definition engine_view (st : State) : State :=
  with_flags st false false false false.

(** Two states that differ at most in their flags. *)
Definition same_engine (a b : State) : Prop := engine_view a = engine_view b.

Definition is_flag_event (ev : Event) : bool :=
  match ev with
  | TogglePump | ToggleFan | SimulateEth | SimulateModbus => true
  | _ => false
  end.

(** From [same_engine a b], the equality of every field but the flags;
    the fields of [a] are then rewritten into those of [b]. *)
Ltac same_engine_fields H :=
  unfold same_engine, engine_view, with_flags in H;
  injection H as ?Hf ?Hf ?Hf ?Hf ?Hf ?Hf ?Hf ?Hf ?Hf ?Hf ?Hf ?Hf ?Hf.

Ltac rewrite_fields :=
  repeat match goal with
         | Hf : _ ?a = _ ?b |- _ => progress rewrite Hf
         end.

Ltac same_engine_solve :=
  unfold same_engine, engine_view, ret, togglePump, toggleFan, simulateEth,
    simulateModbus, onChange, applySetpoints, with_setpoints, with_flags;
  cbn [fst snd];
  cbn [tempSeries flowSeries pressSeries levelSeries tIn tOut flow press level
       pumpOn fanOn ethConnected modbusConnected alarms setpoints kpis kpisDeps];
  rewrite_fields; reflexivity.

(** A source whose every draw is 1/2. *)
Definition half_draws : Rng := mkRng (fun _ => 1 # 2) 0.

(** Forty-one labelled points. *)
Definition demo_points : list Point.t :=
  map (fun i => Point.mk (string_of_index i) (Fin (inject_Z (Z.of_nat i))))
      (seq 0 41).

(** * Further vocabulary *)

(** A finite number between two bounds. *)
Definition in_range (lo hi : Q) (x : num) : Prop :=
  exists q, x = Fin q /\ lo <= q <= hi.

(** [Math.round(x)]: the nearest integer, the larger one on a tie. *)
Definition Math_round (x : num) : num :=
  match x with
  | Fin q => Fin (inject_Z (Qfloor (q + (1 # 2))))
  | _ => x
  end.

(** The figure shown in the card "Eficiência":
    [Math.round(kpis.efficiency * 100)]. *)
Definition efficiencyPercent (k : Kpis) : num :=
  Math_round (mul (efficiency k) (Fin 100)).

(** The points listed in "Histórico Recente": [series.slice(-5)]. *)
Definition recent (s : list Point.t) : list Point.t := slice s (-5) None.

(** The five alarm names the callback can push. *)
Definition alarmKinds : list string :=
  ["Alta Temperatura"; "Baixa Vazão"; "Pressão Elevada"; "Nível Baixo";
   "Nível Alto"]%string.

Definition is_tick (ev : Event) : bool :=
  match ev with Tick _ => true | _ => false end.

(** The number of draws a handler makes. *)
Definition handler_draws (ev : Event) : nat :=
  match ev with
  | Tick _ => 5
  | ResetHistory => 96
  | _ => 0
  end.

(** The number of draws the render after a handler makes: two when the memo
    of [kpis] is out of date, none otherwise. *)
Definition render_draws (st : State) : nat :=
  if areHookInputsEqual (kpiDeps st) (kpisDeps st) then 0 else 2.

(** The alarms raised by a run of ticks, most recent tick first. *)
Fixpoint tickHistory (times : list string) (st : State) (g : Rng) : list Alarm.t :=
  match times with
  | [] => []
  | t :: times' =>
      let r := step (Tick t) st g in
      tickHistory times' (fst r) (snd r)
      ++ newAlarms (setpoints st) t (fst (sample g))
  end.

(** The instant readings lie in the ranges the simulation can produce (the
    initial readings included). *)
Definition readings_ok (st : State) : Prop :=
  exists ti to fl pr lv,
    (tIn st = Fin ti /\ tOut st = Fin to /\ flow st = Fin fl /\
     press st = Fin pr /\ level st = Fin lv) /\
    (70 <= ti <= 85 /\ 30 <= to <= 77 /\ 8 <= ti - to <= 42) /\
    120 <= fl <= 180 /\ 1.6 <= pr <= 2.8 /\ 30 <= lv <= 85.

Definition kpis_ok (k : Kpis) : Prop :=
  exists d e c,
    (dt k = Fin d /\ efficiency k = Fin e /\ cop k = Fin c) /\
    8 <= d <= 42 /\ 0.73 <= e <= 0.85 /\ 2.5 <= c <= 4.1.

(** Case analysis on the membership of a rule in the rule table, and the
    choice of the rule that matches a condition. *)
Ltac rule_cases H :=
  cbn [rule_table In] in H;
  repeat (destruct H as [H | H]; [subst; cbn [fires kind] in * |]);
  try contradiction; try discriminate; try assumption.

Ltac rule_at tac :=
  eexists; split;
  [cbn [rule_table In]; tac
  | split; [cbn [fires]; eassumption | reflexivity]].

Ltac rule_pick :=
  first [ solve [rule_at ltac:(left; reflexivity)]
        | solve [rule_at ltac:(right; left; reflexivity)]
        | solve [rule_at ltac:(do 2 right; left; reflexivity)]
        | solve [rule_at ltac:(do 3 right; left; reflexivity)]
        | solve [rule_at ltac:(do 4 right; left; reflexivity)] ].

(** The label and the sample of each tick of a run of ticks, oldest first. *)
Fixpoint tickSamples (times : list string) (st : State) (g : Rng)
  : list (string * Sample) :=
  match times with
  | [] => []
  | t :: times' =>
      let r := step (Tick t) st g in
      (t, fst (sample g)) :: tickSamples times' (fst r) (snd r)
  end.

(** The point a tick pushes for the reading [f] of its sample. *)
Definition tickPoint (f : Sample -> num) (ts : string * Sample) : Point.t :=
  Point.mk (fst ts) (f (snd ts)).

(** The last [n] elements of a list. *)
Definition lastn {A : Type} (n : nat) (l : list A) : list A :=
  skipn (List.length l - n) l.

(** Every value of a series lies between two bounds. *)
Definition values_in (lo hi : Q) (s : list Point.t) : Prop :=
  Forall (fun p => in_range lo hi (Point.value p)) s.

(** The four series hold values in the ranges of the four seeding calls. *)
Definition seeded_ranges (st : State) : Prop :=
  values_in 27 33 (tempSeries st) /\ values_in 130 160 (flowSeries st) /\
  values_in 1.8 2.4 (pressSeries st) /\ values_in 51 69 (levelSeries st).

(** * Properties *)

(** ** Slicing *)

Section Slice.
Context {A : Type}.
Implicit Types l : list A.

Lemma firstn_min_length l (n : nat) :
  firstn (Nat.min n (List.length l)) l = firstn n l.
Proof.
  destruct (Nat.le_gt_cases n (List.length l)) as [Hle | Hgt].
  - now rewrite Nat.min_l.
  - rewrite Nat.min_r by lia.
    rewrite firstn_all. symmetry. apply firstn_all2. lia.
Qed.

(** [l.slice(0, n)] keeps the first [n] elements. *)
Lemma slice_prefix l (n : nat) :
  slice l 0 (Some (Z.of_nat n)) = firstn n l.
Proof.
  unfold slice, rel_index.
  replace (0 <? 0)%Z with false by reflexivity.
  destruct (Z.ltb_spec (Z.of_nat n) 0) as [Hneg | _]; [lia |].
  rewrite (Z.min_l 0) by lia. cbn [Z.to_nat skipn].
  rewrite Z.sub_0_r, <- Nat2Z.inj_min, Nat2Z.id.
  apply firstn_min_length.
Qed.

(** [l.slice(-n)] keeps the last [n] elements, for [n] positive. *)
Lemma slice_suffix l (n : nat) :
  (0 < n)%nat ->
  slice l (- Z.of_nat n) None = skipn (List.length l - n) l.
Proof.
  intros Hn. unfold slice, rel_index.
  destruct (Z.ltb_spec (- Z.of_nat n) 0) as [_ | Hge]; [| lia].
  set (k := Z.to_nat (Z.max (Z.of_nat (List.length l) + - Z.of_nat n) 0)).
  assert (Hk : k = (List.length l - n)%nat) by (subst k; lia).
  rewrite Hk. apply firstn_all2. rewrite length_skipn. lia.
Qed.

Lemma skipn_length_le l (n : nat) :
  (List.length (skipn (List.length l - n) l) <= n)%nat.
Proof. rewrite length_skipn. lia. Qed.
End Slice.

(** ** The series buffers *)

(** With the default [max], a push keeps the last 39 points and appends. *)
Lemma pushSeries_default s point :
  pushSeries s point max_default = skipn (List.length s - 39) s ++ [point].
Proof.
  change (pushSeries s point max_default)
    with (slice s (- Z.of_nat 39) None ++ [point]).
  rewrite slice_suffix by lia. reflexivity.
Qed.

Lemma pushSeries_length s point :
  (List.length (pushSeries s point max_default) <= 40)%nat.
Proof.
  rewrite pushSeries_default, length_app. cbn [List.length].
  pose proof (skipn_length_le s 39). lia.
Qed.

(** The buffer is the window of the last 40 elements of everything it was
    given. *)
Lemma pushAll_window points : forall s,
  (List.length s <= 40)%nat ->
  pushAll s points = skipn (List.length (s ++ points) - 40) (s ++ points).
Proof.
  induction points as [| p points IH]; intros s Hs.
  - cbn [pushAll fold_left]. rewrite app_nil_r.
    replace (List.length s - 40)%nat with 0%nat by lia. reflexivity.
  - cbn [pushAll fold_left]. fold (pushAll (pushSeries s p max_default) points).
    rewrite IH by apply pushSeries_length.
    rewrite pushSeries_default.
    set (k := (List.length s - 39)%nat).
    rewrite <- (firstn_skipn k s) at 3 4.
    rewrite <- !app_assoc. cbn [app].
    set (rest := skipn k s ++ p :: points).
    assert (Hk : List.length (firstn k s) = k)
      by (rewrite length_firstn; subst k; lia).
    rewrite (skipn_app (List.length (firstn k s ++ rest) - 40)).
    rewrite length_app, Hk.
    assert (Hrest : (List.length rest = List.length s - k + S (List.length points))%nat).
    { subst rest. rewrite length_app, length_skipn. cbn [List.length]. lia. }
    rewrite (skipn_all2 (firstn k s)) by (rewrite Hk; subst k; lia).
    cbn [app]. f_equal. subst k. lia.
Qed.

(** ** The random source and the seed generator *)

Lemma advance_advance n m g : advance m (advance n g) = advance (n + m) g.
Proof. unfold advance; cbn. f_equal. lia. Qed.

Lemma genSeed_loop_run n avg vari : forall i out g,
  genSeed_loop n i avg vari out g =
  (out ++ map (fun j => Point.mk (string_of_index (i + j))
                          (seed_value avg vari (Fin (draws g (pos g + j)))))
              (seq 0 n),
   advance n g).
Proof.
  induction n as [| n IH]; intros i out g.
  - cbn. rewrite app_nil_r. unfold advance. now rewrite Nat.add_0_r; destruct g.
  - cbn [genSeed_loop]. unfold bind, Math_random. rewrite IH.
    unfold push, advance. cbn [draws pos]. f_equal.
    + rewrite <- app_assoc. f_equal. cbn [app seq map].
      rewrite !Nat.add_0_r. f_equal.
      rewrite <- seq_shift, map_map. apply map_ext. intros j.
      now rewrite !Nat.add_succ_r.
    + f_equal. lia.
Qed.

Lemma genSeed_run n avg vari g :
  genSeed n avg vari g = (map (seed_point avg vari g) (seq 0 n), advance n g).
Proof. unfold genSeed. now rewrite genSeed_loop_run. Qed.

Lemma genSeed_length n avg vari g :
  List.length (fst (genSeed n avg vari g)) = n.
Proof. now rewrite genSeed_run; cbn; rewrite length_map, length_seq. Qed.

(** ** Running the component *)

Lemma run_app evs1 : forall evs2 st g,
  run (evs1 ++ evs2) st g =
  run evs2 (fst (run evs1 st g)) (snd (run evs1 st g)).
Proof.
  induction evs1 as [| ev evs1 IH]; intros evs2 st g; [reflexivity |].
  cbn [app run]. unfold bind.
  destruct (step ev st g) as [st' g']. apply IH.
Qed.

Lemma sample_rng g : snd (sample g) = advance 5 g.
Proof. unfold advance. cbn. f_equal. lia. Qed.

(** What a tick writes, in terms of its sample. *)
Lemma tick_alarms time st g :
  alarms (fst (tick time st g)) =
  let fired := newAlarms (setpoints st) time (fst (sample g)) in
  if truthy_length fired
  then slice (fired ++ alarms st) 0 (Some 40%Z)
  else slice (alarms st) 0 (Some 40%Z).
Proof. reflexivity. Qed.

Lemma tick_series time st g :
  series (fst (tick time st g)) =
  let s := fst (sample g) in
  [pushSeries (tempSeries st) (Point.mk time (newTempAvg s)) max_default;
   pushSeries (flowSeries st) (Point.mk time (newFlow s)) max_default;
   pushSeries (pressSeries st) (Point.mk time (newPress s)) max_default;
   pushSeries (levelSeries st) (Point.mk time (newLevel s)) max_default].
Proof. reflexivity. Qed.

(** A render only ever writes the memo of [kpis]. *)
Lemma render_frame st g :
  series (fst (render st g)) = series st /\
  kpiDeps (fst (render st g)) = kpiDeps st /\
  flags (fst (render st g)) = flags st /\
  alarms (fst (render st g)) = alarms st /\
  setpoints (fst (render st g)) = setpoints st.
Proof.
  unfold render.
  destruct (areHookInputsEqual (kpiDeps st) (kpisDeps st)); cbn; auto.
Qed.

Lemma render_alarms st g : alarms (fst (render st g)) = alarms st.
Proof. apply render_frame. Qed.

Lemma step_alarms ev st g :
  alarms (fst (step ev st g)) = alarms (fst (handle ev st g)).
Proof.
  unfold step, bind. destruct (handle ev st g) as [st' g'].
  apply render_alarms.
Qed.

Lemma Object_is_refl x : Object_is x x = true.
Proof. destruct x; cbn; auto. apply Qeq_bool_iff. reflexivity. Qed.

Lemma areHookInputsEqual_refl l : areHookInputsEqual l l = true.
Proof.
  induction l as [| x l IH]; cbn; [reflexivity |].
  now rewrite Object_is_refl, IH.
Qed.

Lemma render_settled st g : settled (fst (render st g)).
Proof.
  unfold render, settled.
  destruct (areHookInputsEqual (kpiDeps st) (kpisDeps st)) eqn:E; cbn.
  - exact E.
  - exact (areHookInputsEqual_refl (kpiDeps st)).
Qed.

Lemma render_idle st g : settled st -> render st g = (st, g).
Proof. unfold settled, render. now intros ->. Qed.

Lemma step_settled ev st g : settled (fst (step ev st g)).
Proof.
  unfold step, bind. destruct (handle ev st g) as [st' g'].
  apply render_settled.
Qed.

Lemma mount_settled g : settled (fst (mount g)).
Proof.
  unfold mount, bind. rewrite !genSeed_run. reflexivity.
Qed.

Lemma reachable_settled st g : reachable st g -> settled st.
Proof.
  intros H; destruct H; [apply mount_settled | apply step_settled].
Qed.

(** The alarm log never holds more than 40 entries. *)
Lemma slice_40_length {A : Type} (l : list A) :
  (List.length (slice l 0 (Some 40%Z)) <= 40)%nat.
Proof.
  change 40%Z with (Z.of_nat 40). rewrite slice_prefix, length_firstn. lia.
Qed.

Lemma handle_alarms_bound ev st g :
  (List.length (alarms st) <= 40)%nat ->
  (List.length (alarms (fst (handle ev st g))) <= 40)%nat.
Proof.
  intros H. destruct ev; cbn [handle ret fst]; try exact H.
  - rewrite tick_alarms. cbv zeta.
    destruct (truthy_length _); apply slice_40_length.
  - cbn. lia.
Qed.

Lemma reachable_alarms_bound st g :
  reachable st g -> (List.length (alarms st) <= 40)%nat.
Proof.
  induction 1 as [g | ev st g _ IH].
  - unfold mount, bind. rewrite !genSeed_run. cbn. lia.
  - rewrite step_alarms. now apply handle_alarms_bound.
Qed.

(** ** Alarm rules *)

Lemma newAlarms_rules sp time s :
  newAlarms sp time s = alarms_of_rules time (rule_table sp s).
Proof.
  unfold newAlarms, alarms_of_rules, rule_table, push. cbn [filter fires].
  destruct (gt (newTempAvg s) (tempHigh sp)), (lt (newFlow s) (flowLow sp)),
    (gt (newPress s) (pressHigh sp)), (lt (newLevel s) (levelLow sp)),
    (gt (newLevel s) (levelHigh sp)); reflexivity.
Qed.

Lemma newAlarms_length sp time s :
  (List.length (newAlarms sp time s) <= 5)%nat.
Proof.
  rewrite newAlarms_rules. unfold alarms_of_rules.
  rewrite length_map. apply (filter_length_le fires (rule_table sp s)).
Qed.

Lemma truthy_length_nil {A : Type} (l : list A) :
  truthy_length l = false <-> l = [].
Proof. destruct l; cbn; split; congruence. Qed.

(** The log after a tick, whichever branch is taken. *)
Lemma step_tick_alarms time st g :
  alarms (fst (step (Tick time) st g)) =
  firstn 40 (newAlarms (setpoints st) time (fst (sample g)) ++ alarms st).
Proof.
  rewrite step_alarms. cbn [handle]. rewrite tick_alarms. cbv zeta.
  change 40%Z with (Z.of_nat 40). rewrite !slice_prefix.
  destruct (truthy_length _) eqn:E; [reflexivity |].
  apply truthy_length_nil in E. now rewrite E.
Qed.

(** C1.  On every tick the interval callback evaluates the five rules
    (tempAvg > tempHigh, flow < flowLow, press > pressHigh,
    level < levelLow, level > levelHigh) in that order against the setpoints
    of the current state; every rule that fires contributes exactly one
    alarm, whose value is the reading rounded to 2 decimals and whose time is
    the tick's; these alarms are what the tick puts in front of the log.
    With the initial setpoints (78, 130, 2.4, 20, 90) and the readings
    tempAvg = 80, flow = 140, press = 2.0, level = 50 exactly one alarm,
    "Alta Temperatura" with value 80, is produced, both on the readings
    alone and through a whole tick on a freshly mounted component. *)
Theorem tick_evaluates_alarm_rules :
  (forall sp time s,
      newAlarms sp time s = alarms_of_rules time (rule_table sp s)) /\
  (forall time st g,
      alarms (fst (step (Tick time) st g)) =
      firstn 40 (alarms_of_rules time (rule_table (setpoints st) (fst (sample g)))
                 ++ alarms st)) /\
  (forall time tin tout,
      newAlarms initialSetpoints time
        (mkSample tin tout (Fin 80) (Fin 140) (Fin 2) (Fin 50)) =
      [Alarm.mk "Alta Temperatura" (Fin 80) time]) /\
  (forall time g,
      let s := fst (sample example_draws) in
      (newTempAvg s, newFlow s, newPress s, newLevel s) =
      (Fin 80, Fin 140, Fin 2, Fin 50) /\
      alarms (fst (step (Tick time) (fst (mount g)) example_draws)) =
      [Alarm.mk "Alta Temperatura" (Fin 80) time]).
Proof.
  split; [exact newAlarms_rules |].
  split; [intros; now rewrite step_tick_alarms, newAlarms_rules |].
  split; [reflexivity |].
  intros time g. split; [reflexivity |].
  rewrite step_tick_alarms. reflexivity.
Qed.

(** ** The alarm log *)

(** C3.  In every state the component can reach, a tick on which at least
    one rule fires puts the new alarms, in rule order, in front of the
    previous log and keeps the first 40 entries, so that what is cut off is
    the tail, the oldest entries; a tick on which no rule fires leaves the
    log as it was. *)
Theorem tick_alarm_log (time : string) (st : State) (g : Rng) :
  reachable st g ->
  let fired := alarms_of_rules time (rule_table (setpoints st) (fst (sample g))) in
  let log' := alarms (fst (step (Tick time) st g)) in
  (fired <> [] ->
   log' = firstn 40 (fired ++ alarms st) /\
   log' = fired ++ firstn (40 - List.length fired) (alarms st) /\
   (List.length log' <= 40)%nat) /\
  (fired = [] -> log' = alarms st).
Proof.
  intros Hreach fired log'.
  assert (Hlog : log' = firstn 40 (fired ++ alarms st)).
  { subst log' fired. now rewrite step_tick_alarms, newAlarms_rules. }
  split.
  - intros _. split; [exact Hlog |]. split.
    + rewrite Hlog, firstn_app. f_equal. apply firstn_all2.
      subst fired. rewrite <- newAlarms_rules.
      pose proof (newAlarms_length (setpoints st) time (fst (sample g))). lia.
    + rewrite Hlog, length_firstn. lia.
  - intros Hnone. rewrite Hlog, Hnone. cbn [app].
    apply firstn_all2. exact (reachable_alarms_bound st g Hreach).
Qed.

(** ** Applying setpoints *)

(** C6.  Whatever happened before (any events, hence any log and any
    setpoint values typed in), the log is empty right after "Aplicar". *)
Theorem applySetpoints_clears_log (evs : list Event) (st : State) (g : Rng) :
  alarms (fst (run (evs ++ [Apply]) st g)) = [] /\
  List.length (alarms (fst (step Apply st g))) = 0%nat.
Proof.
  split.
  - rewrite run_app. cbn [run]. unfold bind at 1.
    destruct (step Apply _ _) as [st' g'] eqn:E. cbn [ret fst].
    change st' with (fst (st', g')). rewrite <- E. now rewrite step_alarms.
  - now rewrite step_alarms.
Qed.

(** ** The series buffers, continued *)

(** C2.  Starting from a buffer of at most 40 points, the buffer never holds
    more than 40 points at any moment of a sequence of pushes, and once
    40 + k points have been pushed it is exactly the last 40 of them, in the
    order they were pushed. *)
Theorem pushSeries_bounded_fifo (s points : list Point.t) :
  (List.length s <= 40)%nat ->
  (forall n, (List.length (pushAll s (firstn n points)) <= 40)%nat) /\
  (forall k, List.length points = (40 + k)%nat ->
             pushAll s points = skipn k points).
Proof.
  intros Hs. split.
  - intros n. rewrite pushAll_window by exact Hs. rewrite length_skipn. lia.
  - intros k Hk. rewrite pushAll_window by exact Hs.
    rewrite length_app, Hk, skipn_app.
    rewrite skipn_all2 by lia. cbn [app]. f_equal. lia.
Qed.

(** ** Arithmetic on finite numbers *)

Lemma lt_Fin a b : lt (Fin a) (Fin b) = true <-> a < b.
Proof.
  cbn. rewrite negb_true_iff, <- not_true_iff_false, Qle_bool_iff.
  split; [apply Qnot_le_lt | apply Qlt_not_le].
Qed.

Lemma Math_max_Fin_r a b : a < b -> Math_max (Fin a) (Fin b) = Fin b.
Proof. intros H. unfold Math_max. apply lt_Fin in H. now rewrite H. Qed.

Lemma Math_min_Fin_r a b : b < a -> Math_min (Fin a) (Fin b) = Fin b.
Proof. intros H. unfold Math_min. apply lt_Fin in H. now rewrite H. Qed.

Lemma round2_nonneg q :
  0 <= q -> q < 10 ^ 21 -> round2 (Fin q) = Fin (round2_mag q).
Proof.
  intros H0 H1. unfold round2.
  assert (Hbig : Qle_bool (10 ^ 21) (Qabs q) = false).
  { apply not_true_iff_false. rewrite Qle_bool_iff, Qabs_pos by exact H0.
    now apply Qlt_not_le. }
  assert (Hneg : Qis_neg q = false).
  { unfold Qis_neg. now apply negb_false_iff, Qle_bool_iff. }
  now rewrite Hbig, Hneg.
Qed.

(** Rounding keeps two values apart that differ by at least 0.01. *)
Lemma round2_mag_lt x y : x + (1 # 100) <= y -> round2_mag x < round2_mag y.
Proof.
  intros H. unfold round2_mag. apply Qred_lt.
  assert (Hz : (Qfloor (x * 100 + (1 # 2)) < Qfloor (y * 100 + (1 # 2)))%Z).
  { rewrite Zlt_Qlt.
    pose proof (Qfloor_le (x * 100 + (1 # 2))) as Hx.
    pose proof (Qlt_floor (y * 100 + (1 # 2))) as Hy.
    rewrite inject_Z_plus in Hy. change (inject_Z 1) with 1 in Hy. lra. }
  unfold Qlt. cbn [Qnum Qden]. lia.
Qed.

(** Bounds on [(r - 0.5) * v] for a draw [r]. *)
Lemma centred_draw_bounds r v :
  0 <= r < 1 -> 0 <= v ->
  - (v / 2) <= (r + - 0.5) * v <= v / 2 /\
  (0 < v -> (r + - 0.5) * v < v / 2).
Proof.
  intros Hr Hv.
  assert (H0 : 0 <= r * v) by (apply Qmult_le_0_compat; lra).
  assert (H1 : 0 <= (1 - r) * v) by (apply Qmult_le_0_compat; lra).
  assert (H2 : 0 < v -> 0 < (1 - r) * v)
    by (intros; apply Qmult_lt_0_compat; lra).
  assert (E1 : (r + - 0.5) * v == r * v - v * (1 # 2)) by ring.
  assert (E2 : (1 - r) * v == v - r * v) by ring.
  assert (E3 : v / 2 == v * (1 # 2)) by field.
  rewrite E1, !E3. rewrite E2 in H1, H2. clear E1 E2 E3.
  generalize dependent (r * v). intros p H0 H1 H2.
  split; [split; lra |]. intros Hpos. specialize (H2 Hpos). lra.
Qed.

(** ** The simulated temperatures *)

Lemma sample_temperatures g :
  let tin := 70 + draws g (pos g) * 15 in
  let drop := 8 + draws g (S (pos g)) * 20 in
  newTIn (fst (sample g)) = Fin tin /\
  newTOut (fst (sample g)) = Math_max (Fin 15) (sub (Fin tin) (Fin drop)).
Proof. split; reflexivity. Qed.

(** C8.  With both draws in [0, 1): the inlet temperature [70 + r1 * 15]
    lies in [70, 85), the drop [8 + r2 * 20] in [8, 28), the outlet
    temperature is [Math.max(15, newTIn - drop)], which is never below 15
    and strictly below the inlet; the same strict order holds between the
    two readings stored by the tick after rounding. *)
Theorem outlet_cooler_than_inlet (g : Rng) :
  unit_draws g ->
  let s := fst (sample g) in
  let tin := 70 + draws g (pos g) * 15 in
  let drop := 8 + draws g (S (pos g)) * 20 in
  (70 <= tin < 85 /\ 8 <= drop < 28) /\
  newTIn s = Fin tin /\
  newTOut s = Math_max (Fin 15) (sub (newTIn s) (Fin drop)) /\
  (exists tout, newTOut s = Fin tout /\ 15 <= tout /\ tout < tin) /\
  (forall time st,
      lt (newTOut s) (newTIn s) = true /\
      lt (tOut (fst (tick time st g))) (tIn (fst (tick time st g))) = true).
Proof.
  intros Hg s tin drop.
  pose proof (Hg (pos g)) as H1. pose proof (Hg (S (pos g))) as H2.
  assert (Hin : 70 <= tin < 85) by (subst tin; lra).
  assert (Hdrop : 8 <= drop < 28) by (subst drop; lra).
  destruct (sample_temperatures g) as [Etin Etout].
  fold tin drop s in Etin, Etout.
  assert (Eout : newTOut s = Fin (tin + - drop)).
  { rewrite Etout. cbn [sub neg add]. apply Math_max_Fin_r. lra. }
  split; [now split |]. split; [exact Etin |].
  split; [now rewrite Etin |].
  split; [exists (tin + - drop); split; [exact Eout | lra] |].
  intros time st. split.
  - rewrite Eout, Etin. apply lt_Fin. lra.
  - change (tOut (fst (tick time st g))) with (round2 (newTOut s)).
    change (tIn (fst (tick time st g))) with (round2 (newTIn s)).
    rewrite Eout, Etin.
    assert (Hbig : 85 < 10 ^ 21) by reflexivity.
    rewrite !round2_nonneg by lra.
    apply lt_Fin, round2_mag_lt. lra.
Qed.

(** ** KPIs *)

(** C10.  For a draw [r] in [0, 1) the efficiency is [0.85 - r * 0.12]
    itself: it lies in (0.73, 0.85], inside [0.73, 0.85], so neither
    [Math.min(0.98, .)] nor [Math.max(0.5, .)] changes it. *)
Theorem efficiency_never_clamped (tIn tOut : num) (g : Rng) :
  unit_draws g ->
  let r := draws g (pos g) in
  let e := 0.85 - r * 0.12 in
  efficiency (fst (computeKpis tIn tOut g)) = Fin e /\
  (0.73 <= e <= 0.85 /\ 0.73 < e) /\
  Math_min (Fin 0.98) (Fin e) = Fin e /\
  Math_max (Fin 0.5) (Fin e) = Fin e.
Proof.
  intros Hg r e. pose proof (Hg (pos g)) as Hr. fold r in Hr.
  assert (He : 0.73 < e <= 0.85) by (subst e; lra).
  assert (Hmin : Math_min (Fin 0.98) (Fin e) = Fin e)
    by (apply Math_min_Fin_r; lra).
  assert (Hmax : Math_max (Fin 0.5) (Fin e) = Fin e)
    by (apply Math_max_Fin_r; lra).
  split; [| split; [split; [split |]; lra | now split]].
  change (efficiency (fst (computeKpis tIn tOut g)))
    with (Math_max (Fin 0.5) (Math_min (Fin 0.98) (Fin e))).
  now rewrite Hmin, Hmax.
Qed.

(** ** Seeding the series *)

Lemma bind_run {A B : Type} (m : M A) (k : A -> M B) g :
  bind m k g = k (fst (m g)) (snd (m g)).
Proof. unfold bind. now destruct (m g). Qed.

Lemma genSeed_rng n avg vari g : snd (genSeed n avg vari g) = advance n g.
Proof. now rewrite genSeed_run. Qed.


Lemma seeds_length g : map (@List.length Point.t) (seeds g) = [24; 24; 24; 24]%nat.
Proof. unfold seeds. cbn [map]. now rewrite !genSeed_length. Qed.

Lemma mount_series g : series (fst (mount g)) = seeds g.
Proof.
  unfold mount. rewrite !bind_run, !genSeed_rng, !advance_advance. reflexivity.
Qed.

Lemma resetHistory_run st g :
  resetHistory st g =
  ({| tempSeries := nth 0 (seeds g) []; flowSeries := nth 1 (seeds g) [];
      pressSeries := nth 2 (seeds g) []; levelSeries := nth 3 (seeds g) [];
      tIn := tIn st; tOut := tOut st; flow := flow st;
      press := press st; level := level st;
      pumpOn := pumpOn st; fanOn := fanOn st;
      ethConnected := ethConnected st;
      modbusConnected := modbusConnected st;
      alarms := alarms st; setpoints := setpoints st;
      kpis := kpis st; kpisDeps := kpisDeps st |},
   advance 96 g).
Proof.
  unfold resetHistory, seeds. cbn [nth].
  rewrite !bind_run, !genSeed_rng, !advance_advance. reflexivity.
Qed.


(** C7.  "Resetar Histórico" replaces the four series with four fresh seeds
    and leaves the instant readings, the alarm log, the setpoints and the
    equipment and connectivity flags as they were. *)
Theorem resetHistory_reseeds_series_only (st : State) (g : Rng) :
  let st' := fst (step ResetHistory st g) in
  series st' = seeds g /\
  [tIn st'; tOut st'; flow st'; press st'; level st'] =
  [tIn st; tOut st; flow st; press st; level st] /\
  alarms st' = alarms st /\
  setpoints st' = setpoints st /\
  flags st' = flags st.
Proof.
  intros st'. subst st'. unfold step. rewrite bind_run. cbn [handle].
  destruct (render_frame (fst (resetHistory st g)) (snd (resetHistory st g)))
    as (Hs & Hr & Hf & Ha & Hp).
  unfold kpiDeps in Hr. rewrite Hs, Hr, Hf, Ha, Hp.
  rewrite resetHistory_run. repeat split.
Qed.

(** Every series of a reachable state fits the capacity: the component
    only ever pushes onto buffers of at most 40 points. *)
Lemma reachable_series_bound st g :
  reachable st g ->
  Forall (fun s => (List.length s <= 40)%nat) (series st).
Proof.
  assert (Hseeds : forall g0,
             Forall (fun s => (List.length s <= 40)%nat) (seeds g0)).
  { intros g0. unfold seeds.
    repeat (constructor; [rewrite genSeed_length; lia |]). constructor. }
  induction 1 as [g | ev st g _ IH].
  - rewrite mount_series. apply Hseeds.
  - unfold step. rewrite bind_run.
    destruct (render_frame (fst (handle ev st g)) (snd (handle ev st g)))
      as [Hs _].
    rewrite Hs. destruct ev; cbn [handle ret fst]; try exact IH.
    + rewrite tick_series. cbv zeta.
      repeat (constructor; [apply pushSeries_length |]). constructor.
    + rewrite resetHistory_run. apply Hseeds.
Qed.

(** ** Setpoint fields *)

Lemma step_setpoints ev st g :
  setpoints (fst (step ev st g)) = setpoints (fst (handle ev st g)).
Proof. unfold step. rewrite bind_run. apply render_frame. Qed.

Lemma applySetpoints_setpoints st :
  setpoints (applySetpoints st) = setpoints st.
Proof. reflexivity. Qed.


(** ** Equipment and connectivity flags *)

Lemma same_engine_trans a b c :
  same_engine a b -> same_engine b c -> same_engine a c.
Proof. unfold same_engine. congruence. Qed.

Lemma same_engine_fields_eq a b :
  same_engine a b ->
  series a = series b /\ kpiDeps a = kpiDeps b /\ alarms a = alarms b /\
  setpoints a = setpoints b /\ kpis a = kpis b /\ kpisDeps a = kpisDeps b.
Proof.
  intros H. same_engine_fields H. unfold series, kpiDeps.
  repeat split; congruence.
Qed.

Lemma tick_run time st g :
  tick time st g =
  (let s := fst (sample g) in
   let fired := newAlarms (setpoints st) time s in
   {| tempSeries :=
        pushSeries (tempSeries st) (Point.mk time (newTempAvg s)) max_default;
      flowSeries :=
        pushSeries (flowSeries st) (Point.mk time (newFlow s)) max_default;
      pressSeries :=
        pushSeries (pressSeries st) (Point.mk time (newPress s)) max_default;
      levelSeries :=
        pushSeries (levelSeries st) (Point.mk time (newLevel s)) max_default;
      tIn := round2 (newTIn s); tOut := round2 (newTOut s);
      flow := newFlow s; press := newPress s; level := newLevel s;
      pumpOn := pumpOn st; fanOn := fanOn st;
      ethConnected := ethConnected st;
      modbusConnected := modbusConnected st;
      alarms :=
        if truthy_length fired
        then slice (fired ++ alarms st) 0 (Some 40%Z)
        else slice (alarms st) 0 (Some 40%Z);
      setpoints := setpoints st;
      kpis := kpis st; kpisDeps := kpisDeps st |},
   advance 5 g).
Proof.
  unfold tick. rewrite bind_run, sample_rng. reflexivity.
Qed.

Lemma render_same_engine a b g :
  same_engine a b ->
  same_engine (fst (render a g)) (fst (render b g)) /\
  snd (render a g) = snd (render b g).
Proof.
  intros H. pose proof H as Hall. same_engine_fields H.
  unfold render, kpiDeps. rewrite_fields.
  destruct (areHookInputsEqual _ _).
  - split; [exact Hall | reflexivity].
  - rewrite !bind_run. split; [same_engine_solve | reflexivity].
Qed.

Lemma handle_same_engine ev a b g :
  same_engine a b ->
  same_engine (fst (handle ev a g)) (fst (handle ev b g)) /\
  snd (handle ev a g) = snd (handle ev b g).
Proof.
  intros H. same_engine_fields H.
  destruct ev; cbn [handle ret].
  - rewrite !tick_run. cbv zeta. split; [same_engine_solve | reflexivity].
  - split; [same_engine_solve | reflexivity].
  - split; [same_engine_solve | reflexivity].
  - split; [same_engine_solve | reflexivity].
  - split; [same_engine_solve | reflexivity].
  - split; [same_engine_solve | reflexivity].
  - split; [same_engine_solve | reflexivity].
  - rewrite !resetHistory_run. split; [same_engine_solve | reflexivity].
Qed.

Lemma step_same_engine ev a b g :
  same_engine a b ->
  same_engine (fst (step ev a g)) (fst (step ev b g)) /\
  snd (step ev a g) = snd (step ev b g).
Proof.
  intros H. unfold step. rewrite !bind_run.
  destruct (handle_same_engine ev a b g H) as [Hst Hg].
  rewrite Hg. now apply render_same_engine.
Qed.

Lemma run_same_engine evs : forall a b g,
  same_engine a b ->
  same_engine (fst (run evs a g)) (fst (run evs b g)) /\
  snd (run evs a g) = snd (run evs b g).
Proof.
  induction evs as [| ev evs IH]; intros a b g H.
  - split; [exact H | reflexivity].
  - cbn [run]. rewrite !bind_run.
    destruct (step_same_engine ev a b g H) as [Hst Hg].
    rewrite Hg. now apply IH.
Qed.

(** A flag event changes flags only, and draws nothing. *)
Lemma flag_event_idle ev st g :
  is_flag_event ev = true -> settled st ->
  same_engine (fst (step ev st g)) st /\ snd (step ev st g) = g.
Proof.
  intros Hev Hst. unfold step. rewrite bind_run.
  assert (H : exists st', handle ev st g = (st', g) /\ same_engine st' st
                          /\ settled st').
  { destruct ev; try discriminate Hev; cbn [handle ret];
      eexists; (split; [reflexivity |]); split; try reflexivity; exact Hst. }
  destruct H as (st' & E & Hsame & Hsettled).
  rewrite E. cbn [fst snd]. rewrite render_idle by exact Hsettled.
  now split.
Qed.

(** X13.  Dropping the flag events from a run changes neither the simulation
    nor the draws left. *)
Lemma run_without_flag_events evs : forall a b g,
  same_engine a b -> settled a ->
  let evs' := filter (fun ev => negb (is_flag_event ev)) evs in
  same_engine (fst (run evs a g)) (fst (run evs' b g)) /\
  snd (run evs a g) = snd (run evs' b g).
Proof.
  induction evs as [| ev evs IH]; intros a b g H Hset; cbv zeta.
  - split; [exact H | reflexivity].
  - cbn [filter]. destruct (is_flag_event ev) eqn:Hev; cbn [negb].
    + cbn [run]. rewrite bind_run.
      destruct (flag_event_idle ev a g Hev Hset) as [Hsame Hg].
      rewrite Hg. apply IH.
      * exact (same_engine_trans _ _ _ Hsame H).
      * apply step_settled.
    + cbn [run]. rewrite !bind_run.
      destruct (step_same_engine ev a b g H) as [Hst Hg].
      rewrite <- Hg. apply IH; [exact Hst | apply step_settled].
Qed.

(** C9.  Two runs of ticks that start from states differing at most in the
    pump, fan and connectivity flags, on the same draws, produce the same
    series, instant readings, alarm log and KPIs, and leave the source of
    draws at the same place; each run keeps its own flags. *)
Theorem flags_do_not_affect_ticks (times : list string) (a b : State) (g : Rng) :
  same_engine a b ->
  let ra := run (map Tick times) a g in
  let rb := run (map Tick times) b g in
  series (fst ra) = series (fst rb) /\
  kpiDeps (fst ra) = kpiDeps (fst rb) /\
  alarms (fst ra) = alarms (fst rb) /\
  kpis (fst ra) = kpis (fst rb) /\
  snd ra = snd rb /\
  flags (fst ra) = flags a /\ flags (fst rb) = flags b.
Proof.
  intros H ra rb.
  destruct (run_same_engine (map Tick times) a b g H) as [Hst Hg].
  destruct (same_engine_fields_eq _ _ Hst) as (Hs & Hd & Ha & _ & Hk & _).
  assert (Hflags : forall st g0, flags (fst (run (map Tick times) st g0)) = flags st).
  { clear. induction times as [| t times IH]; intros st g0; [reflexivity |].
    cbn [map run]. rewrite bind_run, IH. unfold step. rewrite bind_run.
    destruct (render_frame (fst (handle (Tick t) st g0))
                           (snd (handle (Tick t) st g0))) as (_ & _ & Hf & _).
    rewrite Hf. reflexivity. }
  subst ra rb. repeat split; auto.
Qed.

(** * Instances *)

Lemma half_draws_unit : unit_draws half_draws.
Proof. intros i. split; [discriminate | reflexivity]. Defined.

Lemma pushSeries_bounded_fifo_witness :
  (List.length (firstn 3 demo_points) <= 40)%nat /\
  (List.length (pushAll (firstn 3 demo_points) demo_points) <= 40)%nat /\
  pushAll (firstn 3 demo_points) demo_points = skipn 1 demo_points.
Proof.
  assert (H : (List.length (firstn 3 demo_points) <= 40)%nat)
    by (vm_compute; lia).
  destruct (pushSeries_bounded_fifo (firstn 3 demo_points) demo_points H)
    as [Hbound Hfifo].
  split; [exact H |].
  split; [exact (Hbound 41%nat) | apply (Hfifo 1%nat); reflexivity].
Defined.

Lemma tick_alarm_log_witness :
  let st := fst (mount example_draws) in
  let g := snd (mount example_draws) in
  reachable st g /\
  alarms (fst (step (Tick "t") st g)) = [Alarm.mk "Baixa Vazão" (Fin 120) "t"] /\
  alarms (fst (step (Tick "t") st half_draws)) = alarms st.
Proof.
  intros st g.
  assert (H : reachable st g) by apply reach_mount.
  destruct (tick_alarm_log "t" st g H) as [Hfired _].
  split; [exact H |]. split.
  - destruct Hfired as (_ & E & _); [vm_compute; discriminate |].
    vm_compute in E. vm_compute. exact E.
  - vm_compute. reflexivity.
Defined.


Lemma outlet_cooler_than_inlet_witness :
  unit_draws half_draws /\
  newTIn (fst (sample half_draws)) = Fin (70 + (1 # 2) * 15) /\
  lt (newTOut (fst (sample half_draws))) (newTIn (fst (sample half_draws))) = true.
Proof.
  destruct (outlet_cooler_than_inlet half_draws half_draws_unit)
    as (_ & Hin & _ & _ & Hlt).
  split; [exact half_draws_unit |]. split; [exact Hin |].
  exact (proj1 (Hlt EmptyString (fst (mount half_draws)))).
Defined.

Lemma efficiency_never_clamped_witness :
  unit_draws half_draws /\
  efficiency (fst (computeKpis (Fin 72) (Fin 30) half_draws)) =
  Fin (0.85 - (1 # 2) * 0.12).
Proof.
  split; [exact half_draws_unit |].
  exact (proj1 (efficiency_never_clamped (Fin 72) (Fin 30) half_draws
                  half_draws_unit)).
Defined.

Lemma flags_do_not_affect_ticks_witness :
  let a := fst (mount example_draws) in
  let b := simulateModbus (togglePump a) in
  let g := snd (mount example_draws) in
  same_engine a b /\
  flags a <> flags b /\
  alarms (fst (run (map Tick ["t1"; "t2"]%string) a g)) =
  alarms (fst (run (map Tick ["t1"; "t2"]%string) b g)) /\
  kpis (fst (run (map Tick ["t1"; "t2"]%string) a g)) =
  kpis (fst (run (map Tick ["t1"; "t2"]%string) b g)).
Proof.
  intros a b g.
  assert (H : same_engine a b) by (vm_compute; reflexivity).
  destruct (flags_do_not_affect_ticks ["t1"; "t2"]%string a b g H)
    as (_ & _ & Ha & Hk & _).
  split; [exact H |]. split; [vm_compute; discriminate |].
  split; [exact Ha | exact Hk].
Defined.

(** * Further properties *)

(** ** Rounding to two decimals *)

Lemma hundredths (n : Z) : (n # 100) == inject_Z n * (1 # 100).
Proof. unfold Qeq, inject_Z, Qmult. cbn [Qnum Qden]. lia. Qed.

Lemma round2_mag_hundredths q :
  round2_mag q == inject_Z (Qfloor (q * 100 + (1 # 2))) * (1 # 100).
Proof. unfold round2_mag. now rewrite Qred_correct, hundredths. Qed.

Lemma round2_mag_comp x y : x == y -> round2_mag x = round2_mag y.
Proof.
  intros H. unfold round2_mag. apply Qred_complete.
  now rewrite (Qfloor_comp (x * 100 + (1 # 2)) (y * 100 + (1 # 2)))
    by (rewrite H; reflexivity).
Qed.

(** Two values at least [k] hundredths apart stay so after rounding. *)
Lemma round2_mag_gap_lower x y (k : Z) :
  x + inject_Z k * (1 # 100) <= y ->
  round2_mag x + inject_Z k * (1 # 100) <= round2_mag y.
Proof.
  intros H. rewrite !round2_mag_hundredths.
  set (a := Qfloor (x * 100 + (1 # 2))). set (b := Qfloor (y * 100 + (1 # 2))).
  assert (Hz : (a + k <= b)%Z).
  { apply Z.lt_succ_r. rewrite Zlt_Qlt. unfold Z.succ.
    rewrite !inject_Z_plus. change (inject_Z 1) with 1.
    pose proof (Qfloor_le (x * 100 + (1 # 2))) as Hx.
    pose proof (Qlt_floor (y * 100 + (1 # 2))) as Hy.
    fold a in Hx. fold b in Hy.
    rewrite inject_Z_plus in Hy. change (inject_Z 1) with 1 in Hy. lra. }
  rewrite Zle_Qle, inject_Z_plus in Hz. lra.
Qed.

(** Two values at most [k] hundredths apart stay so after rounding. *)
Lemma round2_mag_gap_upper x y (k : Z) :
  y <= x + inject_Z k * (1 # 100) ->
  round2_mag y <= round2_mag x + inject_Z k * (1 # 100).
Proof.
  intros H. rewrite !round2_mag_hundredths.
  set (a := Qfloor (x * 100 + (1 # 2))). set (b := Qfloor (y * 100 + (1 # 2))).
  assert (Hz : (b <= a + k)%Z).
  { apply Z.lt_succ_r. rewrite Zlt_Qlt. unfold Z.succ.
    rewrite !inject_Z_plus. change (inject_Z 1) with 1.
    pose proof (Qfloor_le (y * 100 + (1 # 2))) as Hy.
    pose proof (Qlt_floor (x * 100 + (1 # 2))) as Hx.
    fold a in Hx. fold b in Hy.
    rewrite inject_Z_plus in Hx. change (inject_Z 1) with 1 in Hx. lra. }
  rewrite Zle_Qle, inject_Z_plus in Hz. lra.
Qed.

Lemma round2_mag_le x y : x <= y -> round2_mag x <= round2_mag y.
Proof.
  intros H. pose proof (round2_mag_gap_lower x y 0) as G.
  change (inject_Z 0) with 0 in G. lra.
Qed.

(** Rounding moves a value by at most half a hundredth. *)
Lemma round2_mag_error q :
  q - (1 # 200) <= round2_mag q <= q + (1 # 200).
Proof.
  rewrite round2_mag_hundredths.
  pose proof (Qfloor_le (q * 100 + (1 # 2))) as H1.
  pose proof (Qlt_floor (q * 100 + (1 # 2))) as H2.
  rewrite inject_Z_plus in H2. change (inject_Z 1) with 1 in H2.
  split; lra.
Qed.

Lemma round2_mag_nonneg q : 0 <= q -> 0 <= round2_mag q.
Proof.
  intros H. pose proof (round2_mag_le 0 q H) as G.
  change (round2_mag 0) with 0 in G. exact G.
Qed.

Lemma Qfloor_half (n : Z) : Qfloor (inject_Z n + (1 # 2)) = n.
Proof.
  pose proof (Qfloor_le (inject_Z n + (1 # 2))) as H1.
  pose proof (Qlt_floor (inject_Z n + (1 # 2))) as H2.
  rewrite inject_Z_plus in H2. change (inject_Z 1) with 1 in H2.
  set (m := Qfloor (inject_Z n + (1 # 2))) in *.
  apply Z.le_antisymm.
  - apply Z.lt_succ_r. rewrite Zlt_Qlt. unfold Z.succ.
    rewrite inject_Z_plus. change (inject_Z 1) with 1. lra.
  - apply Z.lt_succ_r. rewrite Zlt_Qlt. unfold Z.succ.
    rewrite inject_Z_plus. change (inject_Z 1) with 1. lra.
Qed.

Lemma round2_mag_idem q : round2_mag (round2_mag q) = round2_mag q.
Proof.
  unfold round2_mag at 1 3. apply Qred_complete.
  set (n := Qfloor (q * 100 + (1 # 2))).
  assert (E : round2_mag q * 100 + (1 # 2) == inject_Z n + (1 # 2)).
  { rewrite round2_mag_hundredths. fold n. ring. }
  now rewrite (Qfloor_comp _ _ E), Qfloor_half.
Qed.


Lemma Qis_neg_false q : Qis_neg q = false <-> 0 <= q.
Proof. unfold Qis_neg. now rewrite negb_false_iff, Qle_bool_iff. Qed.

Lemma Qis_neg_true q : Qis_neg q = true <-> q < 0.
Proof.
  unfold Qis_neg. rewrite negb_true_iff, <- not_true_iff_false, Qle_bool_iff.
  split; [apply Qnot_le_lt | apply Qlt_not_le].
Qed.

(** [Number(x.toFixed(2))] applied twice is the same as applied once, for
    every number. *)
Lemma round2_idem x : round2 (round2 x) = round2 x.
Proof.
  destruct x as [| | | q]; try reflexivity.
  destruct (Qle_bool (10 ^ 21) (Qabs q)) eqn:Hbig.
  { assert (E : round2 (Fin q) = Fin q) by (unfold round2; now rewrite Hbig).
    now rewrite !E. }
  destruct (Qis_neg q) eqn:Hneg.
  - set (m := round2_mag (- q)).
    assert (E : round2 (Fin q) = Fin (- m))
      by (unfold round2; now rewrite Hbig, Hneg).
    rewrite E. apply Qis_neg_true in Hneg.
    assert (Hm : 0 <= m) by (apply round2_mag_nonneg; lra).
    unfold round2.
    destruct (Qle_bool (10 ^ 21) (Qabs (- m))); [reflexivity |].
    destruct (Qis_neg (- m)) eqn:Hneg'.
    + f_equal. f_equal. subst m.
      rewrite (round2_mag_comp (- - round2_mag (- q)) (round2_mag (- q)))
        by ring.
      apply round2_mag_idem.
    + apply Qis_neg_false in Hneg'.
      assert (Hzero : m == 0) by lra.
      assert (Em : m = 0).
      { subst m. unfold round2_mag in *. rewrite Qred_correct in Hzero.
        now rewrite (Qred_complete _ _ Hzero). }
      rewrite Em. reflexivity.
  - set (m := round2_mag q).
    assert (E : round2 (Fin q) = Fin m)
      by (unfold round2; now rewrite Hbig, Hneg).
    rewrite E. apply Qis_neg_false in Hneg.
    assert (Hm : 0 <= m) by (apply round2_mag_nonneg; exact Hneg).
    unfold round2.
    destruct (Qle_bool (10 ^ 21) (Qabs m)); [reflexivity |].
    apply Qis_neg_false in Hm. rewrite Hm. f_equal. apply round2_mag_idem.
Qed.

(** Rounding a value between two bounds that are themselves two-decimal
    numbers keeps it between them. *)
Lemma round2_in_range lo hi q :
  0 <= lo -> hi < 10 ^ 21 ->
  round2_mag lo == lo -> round2_mag hi == hi ->
  lo <= q <= hi -> in_range lo hi (round2 (Fin q)).
Proof.
  intros Hlo Hhi Elo Ehi [H1 H2].
  exists (round2_mag q). split.
  - apply round2_nonneg; lra.
  - pose proof (round2_mag_le lo q H1). pose proof (round2_mag_le q hi H2).
    split; lra.
Qed.

(** ** What a tick can read *)

Lemma sample_fields g :
  let s := fst (sample g) in
  let tin := 70 + draws g (pos g) * 15 in
  let drop := 8 + draws g (S (pos g)) * 20 in
  let tout := Math_max (Fin 15) (Fin (tin + - drop)) in
  newTIn s = Fin tin /\
  newTOut s = tout /\
  newTempAvg s = round2 (div (add (Fin tin) tout) (Fin 2)) /\
  newFlow s = round2 (Fin (120 + draws g (S (S (pos g))) * 60)) /\
  newPress s = round2 (Fin (1.6 + draws g (S (S (S (pos g)))) * 1.2)) /\
  newLevel s = round2 (Fin (30 + draws g (S (S (S (S (pos g))))) * 55)).
Proof. repeat split. Qed.

Lemma sample_bounds g :
  unit_draws g ->
  let s := fst (sample g) in
  (exists tin tout,
      newTIn s = Fin tin /\ newTOut s = Fin tout /\
      70 <= tin < 85 /\ 42 < tout < 77 /\ 8 <= tin - tout < 28) /\
  in_range 56 81 (newTempAvg s) /\
  in_range 120 180 (newFlow s) /\
  in_range 1.6 2.8 (newPress s) /\
  in_range 30 85 (newLevel s).
Proof.
  intros Hg s.
  destruct (sample_fields g) as (Ein & Eout & Eavg & Eflow & Epress & Elevel).
  fold s in Ein, Eout, Eavg, Eflow, Epress, Elevel.
  pose proof (Hg (pos g)) as H1. pose proof (Hg (S (pos g))) as H2.
  pose proof (Hg (S (S (pos g)))) as H3.
  pose proof (Hg (S (S (S (pos g))))) as H4.
  pose proof (Hg (S (S (S (S (pos g)))))) as H5.
  set (tin := 70 + draws g (pos g) * 15) in *.
  set (drop := 8 + draws g (S (pos g)) * 20) in *.
  assert (Hmax : Math_max (Fin 15) (Fin (tin + - drop)) = Fin (tin + - drop))
    by (apply Math_max_Fin_r; subst tin drop; lra).
  rewrite Hmax in Eout, Eavg.
  assert (Hbig : 180 < 10 ^ 21) by reflexivity.
  split; [| split; [| split; [| split]]].
  - exists tin, (tin + - drop). subst tin drop. repeat split; try assumption; lra.
  - rewrite Eavg. cbn [add div]. change (Qis_zero 2) with false. cbv iota.
    apply round2_in_range; try reflexivity; try lra.
    unfold Qdiv. change (/ 2) with (1 # 2). subst tin drop. split; lra.
  - rewrite Eflow. apply round2_in_range; try reflexivity; lra.
  - rewrite Epress. apply round2_in_range; try reflexivity; lra.
  - rewrite Elevel. apply round2_in_range; try reflexivity; lra.
Qed.

(** X5.  Whatever the draws in [0, 1), a tick reads an average temperature
    in [56, 81], a flow in [120, 180], a pressure in [1.6, 2.8] and a level
    in [30, 85]; the upper ends are reached only by rounding. *)
Theorem sample_ranges (g : Rng) :
  unit_draws g ->
  let s := fst (sample g) in
  in_range 56 81 (newTempAvg s) /\
  in_range 120 180 (newFlow s) /\
  in_range 1.6 2.8 (newPress s) /\
  in_range 30 85 (newLevel s).
Proof. intros Hg. apply (sample_bounds g Hg). Qed.

(** ** Which rules fire *)

Lemma fired_kind_iff sp time s k :
  In k (map Alarm.type (newAlarms sp time s)) <->
  exists r, In r (rule_table sp s) /\ fires r = true /\ kind r = k.
Proof.
  rewrite newAlarms_rules. unfold alarms_of_rules. rewrite map_map.
  cbn [Alarm.type]. rewrite in_map_iff. split.
  - intros (r & Hk & Hr). apply filter_In in Hr. exists r. tauto.
  - intros (r & Hr & Hf & Hk). exists r. split; [exact Hk |].
    apply filter_In. tauto.
Qed.

(** An alarm of a given name is raised exactly when the condition of its
    rule holds. *)
Lemma fired_kinds sp time s :
  let kinds := map Alarm.type (newAlarms sp time s) in
  (In "Alta Temperatura"%string kinds <-> gt (newTempAvg s) (tempHigh sp) = true) /\
  (In "Baixa Vazão"%string kinds <-> lt (newFlow s) (flowLow sp) = true) /\
  (In "Pressão Elevada"%string kinds <-> gt (newPress s) (pressHigh sp) = true) /\
  (In "Nível Baixo"%string kinds <-> lt (newLevel s) (levelLow sp) = true) /\
  (In "Nível Alto"%string kinds <-> gt (newLevel s) (levelHigh sp) = true).
Proof.
  cbv zeta. rewrite !fired_kind_iff.
  repeat split;
    try (intros (r & Hr & Hf & Hk); rule_cases Hr);
    try (intros H; rule_pick).
Qed.

(** X6.  A rule can fire only if its setpoint lies inside the range the
    simulation reaches: with draws in [0, 1), no temperature alarm for
    [tempHigh >= 81], no flow alarm for [flowLow <= 120], no pressure alarm
    for [pressHigh >= 2.8], no level alarm for [levelLow <= 30] or
    [levelHigh >= 85].  Under the initial setpoints the two level rules
    therefore never fire, and a tick raises at most three alarms. *)
Theorem setpoints_out_of_reach (g : Rng) (th fl ph ll lh : Q) (time : string) :
  unit_draws g ->
  let s := fst (sample g) in
  let sp := mkSetpoints (Fin th) (Fin fl) (Fin ph) (Fin ll) (Fin lh) in
  let kinds := map Alarm.type (newAlarms sp time s) in
  (81 <= th -> ~ In "Alta Temperatura"%string kinds) /\
  (fl <= 120 -> ~ In "Baixa Vazão"%string kinds) /\
  (2.8 <= ph -> ~ In "Pressão Elevada"%string kinds) /\
  (ll <= 30 -> ~ In "Nível Baixo"%string kinds) /\
  (85 <= lh -> ~ In "Nível Alto"%string kinds) /\
  (forall k, In k (map Alarm.type (newAlarms initialSetpoints time s)) ->
             In k ["Alta Temperatura"; "Baixa Vazão"; "Pressão Elevada"]%string) /\
  (List.length (newAlarms initialSetpoints time s) <= 3)%nat.
Proof.
  intros Hg s sp kinds.
  destruct (sample_bounds g Hg)
    as (_ & (ta & Eta & Hta) & (f & Ef & Hf) & (p & Ep & Hp) & (l & El & Hl)).
  fold s in Eta, Ef, Ep, El.
  destruct (fired_kinds sp time s) as (K1 & K2 & K3 & K4 & K5).
  fold kinds in K1, K2, K3, K4, K5.
  cbn [sp tempHigh flowLow pressHigh levelLow levelHigh] in K1, K2, K3, K4, K5.
  unfold gt in K1, K3, K5. rewrite Eta in K1. rewrite Ef in K2.
  rewrite Ep in K3. rewrite El in K4, K5.
  rewrite lt_Fin in K1, K2, K3, K4, K5.
  assert (Hlow : lt (newLevel s) (levelLow initialSetpoints) = false).
  { rewrite El. apply not_true_iff_false. cbn [initialSetpoints levelLow].
    rewrite lt_Fin. lra. }
  assert (Hhigh : gt (newLevel s) (levelHigh initialSetpoints) = false).
  { unfold gt. rewrite El. apply not_true_iff_false.
    cbn [initialSetpoints levelHigh]. rewrite lt_Fin. lra. }
  repeat split.
  - intros H Hin. apply K1 in Hin. lra.
  - intros H Hin. apply K2 in Hin. lra.
  - intros H Hin. apply K3 in Hin. lra.
  - intros H Hin. apply K4 in Hin. lra.
  - intros H Hin. apply K5 in Hin. lra.
  - intros k Hin. apply fired_kind_iff in Hin.
    destruct Hin as (r & Hr & Hfire & Hk). subst k.
    cbn [rule_table In] in Hr.
    destruct Hr as [<- | [<- | [<- | [<- | [<- | []]]]]]; cbn [fires kind] in *;
      try congruence; cbn [In]; auto.
  - rewrite newAlarms_rules. unfold alarms_of_rules, rule_table.
    rewrite length_map. cbn [filter fires]. rewrite Hlow, Hhigh.
    destruct (gt (newTempAvg s) (tempHigh initialSetpoints)),
      (lt (newFlow s) (flowLow initialSetpoints)),
      (gt (newPress s) (pressHigh initialSetpoints)); cbn; lia.
Qed.

(** X7.  The value carried by an alarm is the reading itself: every reading
    of a tick is already rounded to two decimals, so the second rounding in
    the alarm logic changes nothing.  The alarm of a flow, pressure or level
    rule thus shows the number stored in the instant reading and pushed to
    the series by the same tick. *)
Theorem alarm_value_is_reading (sp : Setpoints) (time : string) (g : Rng) :
  let s := fst (sample g) in
  newAlarms sp time s =
  map (fun r => Alarm.mk (kind r) (reading r) time)
      (filter fires (rule_table sp s)).
Proof.
  intros s. rewrite newAlarms_rules. unfold alarms_of_rules.
  apply map_ext_in. intros r Hr. apply filter_In in Hr. destruct Hr as [Hr _].
  f_equal.
  destruct (sample_fields g) as (_ & _ & Eavg & Eflow & Epress & Elevel).
  fold s in Eavg, Eflow, Epress, Elevel.
  cbn [rule_table In] in Hr.
  destruct Hr as [<- | [<- | [<- | [<- | [<- | []]]]]]; cbn [reading];
    [rewrite Eavg | rewrite Eflow | rewrite Epress | rewrite Elevel
    | rewrite Elevel]; apply round2_idem.
Qed.

(** X8.  The two level rules are independent: both alarms are raised in the
    same tick exactly when the level lies strictly between [levelHigh] and
    [levelLow], which needs [levelHigh < levelLow]; with
    [levelLow <= levelHigh] at most one of them is raised. *)
Theorem level_rules_overlap (sp : Setpoints) (time : string) (s : Sample)
        (lv ll lh : Q) :
  newLevel s = Fin lv -> levelLow sp = Fin ll -> levelHigh sp = Fin lh ->
  let kinds := map Alarm.type (newAlarms sp time s) in
  ((In "Nível Baixo"%string kinds /\ In "Nível Alto"%string kinds) <->
   (lh < lv /\ lv < ll)) /\
  (ll <= lh ->
   ~ (In "Nível Baixo"%string kinds /\ In "Nível Alto"%string kinds)).
Proof.
  intros Elv Ell Elh kinds.
  destruct (fired_kinds sp time s) as (_ & _ & _ & K4 & K5).
  fold kinds in K4, K5. unfold gt in K5.
  rewrite Elv, Ell, lt_Fin in K4. rewrite Elv, Elh, lt_Fin in K5.
  split.
  - rewrite K4, K5. tauto.
  - intros H [H4 H5]. apply K4 in H4. apply K5 in H5. lra.
Qed.

(** ** The buffers, for any [max] *)

Lemma slice_from {A : Type} (l : list A) (k : Z) :
  (0 <= k)%Z -> slice l k None = skipn (Z.to_nat k) l.
Proof.
  intros Hk. unfold slice, rel_index.
  destruct (Z.ltb_spec k 0) as [Hneg | _]; [lia |].
  rewrite firstn_all2 by (rewrite length_skipn; lia).
  destruct (Z.le_gt_cases k (Z.of_nat (List.length l))) as [Hle | Hgt].
  - now rewrite Z.min_l.
  - rewrite Z.min_r, Nat2Z.id by lia.
    rewrite !skipn_all2 by lia. reflexivity.
Qed.

(** X1.  For [max >= 2], [pushSeries] keeps the last [max - 1] points and
    appends the new one: the result has [min (length + 1) max] points, so
    [max] is a capacity. *)
Theorem pushSeries_capacity (s : list Point.t) (point : Point.t) (max : Z) :
  (2 <= max)%Z ->
  pushSeries s point max =
  skipn (List.length s - Z.to_nat (max - 1)) s ++ [point] /\
  List.length (pushSeries s point max) =
  Nat.min (List.length s + 1) (Z.to_nat max).
Proof.
  intros Hmax.
  assert (E : pushSeries s point max =
              skipn (List.length s - Z.to_nat (max - 1)) s ++ [point]).
  { unfold pushSeries.
    replace (- max + 1)%Z with (- Z.of_nat (Z.to_nat (max - 1)))%Z by lia.
    rewrite slice_suffix by lia. reflexivity. }
  split; [exact E |].
  rewrite E, length_app, length_skipn. cbn [List.length]. lia.
Qed.

(** X2.  Below 2, [max] is not a capacity.  With [max = 1] the start index
    is [-0], which [slice] reads as 0: nothing is dropped and every push
    makes the buffer one point longer.  With [max <= 0] the start index is
    positive: the first [1 - max] points are dropped, whatever the length. *)
Theorem pushSeries_small_max (s : list Point.t) (point : Point.t) :
  pushSeries s point 1 = s ++ [point] /\
  (forall max, (max <= 0)%Z ->
     pushSeries s point max = skipn (Z.to_nat (1 - max)) s ++ [point]).
Proof.
  split.
  - unfold pushSeries. change (- (1) + 1)%Z with 0%Z.
    rewrite slice_from by lia. reflexivity.
  - intros max Hmax. unfold pushSeries.
    rewrite slice_from by lia. do 2 f_equal. lia.
Qed.

Lemma pushSeries_length_eq s point :
  List.length (pushSeries s point max_default) = Nat.min (List.length s + 1) 40.
Proof.
  rewrite pushSeries_default, length_app, length_skipn. cbn [List.length]. lia.
Qed.

(** ** The length of the series *)

Lemma step_series ev st g :
  series (fst (step ev st g)) = series (fst (handle ev st g)).
Proof. unfold step. rewrite bind_run. apply render_frame. Qed.

Lemma step_tick_series_length time st g :
  map (@List.length Point.t) (series (fst (step (Tick time) st g))) =
  map (fun n => Nat.min (n + 1) 40) (map (@List.length Point.t) (series st)).
Proof.
  rewrite step_series. cbn [handle]. rewrite tick_series. cbv zeta.
  unfold series. cbn [map]. now rewrite !pushSeries_length_eq.
Qed.

Lemma reachable_series_lengths st g :
  reachable st g ->
  exists n, map (@List.length Point.t) (series st) = [n; n; n; n] /\
            (24 <= n <= 40)%nat.
Proof.
  induction 1 as [g | ev st g _ IH].
  - exists 24%nat. rewrite mount_series, seeds_length. split; [reflexivity | lia].
  - destruct IH as (n & En & Hn).
    destruct ev;
      try (exists n; rewrite step_series; cbn [handle ret fst];
           split; [exact En | exact Hn]).
    + exists (Nat.min (n + 1) 40). rewrite step_tick_series_length, En.
      split; [reflexivity | lia].
    + exists 24%nat. rewrite step_series. cbn [handle].
      rewrite resetHistory_run. cbn [fst].
      pose proof (seeds_length g) as Hs. unfold seeds in Hs |- *.
      cbn [nth series tempSeries flowSeries pressSeries levelSeries].
      split; [exact Hs | lia].
Qed.

(** X3.  In every state the component can reach, the four series have the
    same number of points, between 24 (a fresh seed) and 40 (the capacity);
    a tick adds one point to each until the capacity is reached. *)
Theorem series_lengths (st : State) (g : Rng) :
  reachable st g ->
  (exists n, map (@List.length Point.t) (series st) = [n; n; n; n] /\
             (24 <= n <= 40)%nat) /\
  (forall time,
      map (@List.length Point.t) (series (fst (step (Tick time) st g))) =
      map (fun n => Nat.min (n + 1) 40) (map (@List.length Point.t) (series st))).
Proof.
  intros H. split; [now apply (reachable_series_lengths st g) |].
  intros time. apply step_tick_series_length.
Qed.

Lemma step_tick_readings time st g :
  let s := fst (sample g) in
  kpiDeps (fst (step (Tick time) st g)) =
  [round2 (newTIn s); round2 (newTOut s); newFlow s; newPress s; newLevel s].
Proof.
  cbv zeta. unfold step. rewrite bind_run.
  destruct (render_frame (fst (handle (Tick time) st g))
                         (snd (handle (Tick time) st g))) as (_ & Hr & _).
  rewrite Hr. cbn [handle]. rewrite tick_run. reflexivity.
Qed.

(** ** The summary of recent history *)

Lemma recent_suffix s : recent s = skipn (List.length s - 5) s.
Proof.
  unfold recent. change (-5)%Z with (- Z.of_nat 5)%Z.
  apply slice_suffix. lia.
Qed.

Lemma recent_last_pushed s point d :
  last (recent (pushSeries s point max_default)) d = point.
Proof.
  rewrite recent_suffix, pushSeries_default.
  set (l := skipn (List.length s - 39) s).
  rewrite length_app. cbn [List.length].
  rewrite skipn_app.
  replace (List.length l + 1 - 5 - List.length l)%nat with 0%nat by lia.
  cbn [skipn]. apply last_last.
Qed.

(** X4.  In every reachable state the summary "Histórico Recente" lists
    exactly five points of each series, the five most recent; right after a
    tick, the last of them is the point of that tick, which for flow,
    pressure and level carries the instant reading on display. *)
Theorem recent_points (st : State) (g : Rng) :
  reachable st g ->
  Forall (fun s => List.length (recent s) = 5%nat /\
                   recent s = skipn (List.length s - 5) s) (series st) /\
  (forall time d,
      let st' := fst (step (Tick time) st g) in
      map (fun s => last (recent s) d) (series st') =
      [Point.mk time (newTempAvg (fst (sample g)));
       Point.mk time (flow st'); Point.mk time (press st');
       Point.mk time (level st')]).
Proof.
  intros H. split.
  - destruct (reachable_series_lengths st g H) as (n & En & Hn).
    unfold series in *. cbn [map] in En.
    injection En as E1 E2 E3 E4.
    repeat (constructor;
            [split; [rewrite recent_suffix, length_skipn; lia
                    | apply recent_suffix] |]).
    constructor.
  - intros time d st'. subst st'. rewrite step_series. cbn [handle].
    rewrite tick_series. cbv zeta. cbn [map].
    rewrite !recent_last_pushed.
    pose proof (step_tick_readings time st g) as Hr.
    cbv zeta in Hr. unfold kpiDeps in Hr.
    pose proof (f_equal (fun l => nth 2 l NaN) Hr) as Hf.
    pose proof (f_equal (fun l => nth 3 l NaN) Hr) as Hp.
    pose proof (f_equal (fun l => nth 4 l NaN) Hr) as Hl.
    cbn [nth] in Hf, Hp, Hl. now rewrite Hf, Hp, Hl.
Qed.

(** ** The budget of random draws *)

Lemma advance_0 g : advance 0 g = g.
Proof. destruct g. unfold advance. cbn [draws pos]. f_equal. lia. Qed.

Lemma computeKpis_rng a b g : snd (computeKpis a b g) = advance 2 g.
Proof. unfold advance. cbn. f_equal. lia. Qed.

Lemma render_rng st g : snd (render st g) = advance (render_draws st) g.
Proof.
  unfold render, render_draws.
  destruct (areHookInputsEqual (kpiDeps st) (kpisDeps st)).
  - cbn [ret snd]. now rewrite advance_0.
  - rewrite bind_run. cbn [ret snd]. apply computeKpis_rng.
Qed.

Lemma handle_rng ev st g :
  snd (handle ev st g) = advance (handler_draws ev) g.
Proof.
  destruct ev; cbn [handle handler_draws ret snd];
    try (now rewrite advance_0).
  - now rewrite tick_run.
  - now rewrite resetHistory_run.
Qed.

Lemma mount_rng g : snd (mount g) = advance 98 g.
Proof.
  unfold mount. rewrite !bind_run, !genSeed_rng, !advance_advance.
  cbn [ret snd]. now rewrite computeKpis_rng, advance_advance.
Qed.

Lemma step_rng ev st g :
  snd (step ev st g) =
  advance (handler_draws ev + render_draws (fst (handle ev st g))) g.
Proof.
  unfold step. now rewrite bind_run, render_rng, handle_rng, advance_advance.
Qed.

(** A handler other than the tick leaves readings and memo alone. *)
Lemma handle_idle_memo ev st g :
  is_tick ev = false ->
  kpiDeps (fst (handle ev st g)) = kpiDeps st /\
  kpisDeps (fst (handle ev st g)) = kpisDeps st /\
  kpis (fst (handle ev st g)) = kpis st.
Proof.
  intros Hev.
  destruct ev;
    [ discriminate Hev
    | repeat split ..
    | cbn [handle]; rewrite resetHistory_run; repeat split ].
Qed.

Lemma handle_settled ev st g :
  is_tick ev = false -> settled st -> settled (fst (handle ev st g)).
Proof.
  intros Hev Hst. destruct (handle_idle_memo ev st g Hev) as (Hd & Hk & _).
  unfold settled. now rewrite Hd, Hk.
Qed.

(** X11.  Mounting the component makes exactly 98 draws (four seeds of 24
    and two for the KPIs).  An event makes the draws of its handler (5 for a
    tick, 96 for a history reset, none otherwise) plus 2 when the following
    render recomputes the KPIs.  In a reachable state, every event other
    than a tick finds the memo up to date and makes the draws of its handler
    only: the buttons and the setpoint fields never draw. *)
Theorem draw_budget (ev : Event) (st : State) (g : Rng) :
  reachable st g ->
  snd (mount g) = advance 98 g /\
  snd (step ev st g) =
  advance (handler_draws ev + render_draws (fst (handle ev st g))) g /\
  (is_tick ev = false -> snd (step ev st g) = advance (handler_draws ev) g).
Proof.
  intros H. split; [apply mount_rng |]. split; [apply step_rng |].
  intros Hev. rewrite step_rng.
  assert (Hs : settled (fst (handle ev st g)))
    by (apply handle_settled; [exact Hev | exact (reachable_settled st g H)]).
  unfold render_draws. unfold settled in Hs. rewrite Hs. f_equal. lia.
Qed.

(** ** Numeric invariants *)

Lemma computeKpis_fields a b g :
  let k := fst (computeKpis a b g) in
  dt k = round2 (sub a b) /\
  efficiency k =
  Math_max (Fin 0.5)
    (Math_min (Fin 0.98) (Fin (0.85 + - (draws g (pos g) * 0.12)))) /\
  cop k = round2 (Fin (2.5 + draws g (S (pos g)) * 1.6)).
Proof. repeat split. Qed.

Lemma computeKpis_ok ti to g :
  unit_draws g -> 8 <= ti - to <= 42 ->
  kpis_ok (fst (computeKpis (Fin ti) (Fin to) g)).
Proof.
  intros Hg Hd.
  destruct (computeKpis_fields (Fin ti) (Fin to) g) as (Edt & Eeff & Ecop).
  cbv zeta in Edt, Eeff, Ecop.
  pose proof (Hg (pos g)) as H1. pose proof (Hg (S (pos g))) as H2.
  assert (Hbig : 42 < 10 ^ 21) by reflexivity.
  destruct (round2_in_range 8 42 (ti + - to)) as (d & Ed & Hd');
    try reflexivity; try lra.
  destruct (round2_in_range 2.5 4.1 (2.5 + draws g (S (pos g)) * 1.6))
    as (c & Ec & Hc); try reflexivity; try lra.
  exists d, (0.85 + - (draws g (pos g) * 0.12)), c.
  split; [split; [| split] |].
  - rewrite Edt. exact Ed.
  - rewrite Eeff, Math_min_Fin_r by lra. apply Math_max_Fin_r. lra.
  - rewrite Ecop. exact Ec.
  - split; [exact Hd' |]. split; [split; lra | exact Hc].
Qed.

Lemma unit_draws_advance n g : unit_draws (advance n g) <-> unit_draws g.
Proof. reflexivity. Qed.

Lemma tick_readings_ok time st g :
  unit_draws g -> readings_ok (fst (tick time st g)).
Proof.
  intros Hg. rewrite tick_run. cbv zeta. unfold readings_ok.
  cbn [fst tIn tOut flow press level].
  destruct (sample_bounds g Hg)
    as ((tin & tout & Ein & Eout & Hin & Hout & Hdiff) & _ &
        (f & Ef & Hf) & (p & Ep & Hp) & (l & El & Hl)).
  rewrite Ein, Eout, Ef, Ep, El.
  assert (Hbig : 85 < 10 ^ 21) by reflexivity.
  rewrite !round2_nonneg by lra.
  exists (round2_mag tin), (round2_mag tout), f, p, l.
  split; [repeat split |]. split; [| repeat split; lra].
  pose proof (round2_mag_le 70 tin) as G1.
  pose proof (round2_mag_le tin 85) as G2.
  pose proof (round2_mag_le 42 tout) as G3.
  pose proof (round2_mag_le tout 77) as G4.
  pose proof (round2_mag_gap_lower tout tin 800) as G5.
  pose proof (round2_mag_gap_upper tout tin 2800) as G6.
  change (round2_mag 70) with 70 in G1. change (round2_mag 85) with 85 in G2.
  change (round2_mag 42) with 42 in G3. change (round2_mag 77) with 77 in G4.
  change (inject_Z 800 * (1 # 100)) with (800 # 100) in G5.
  change (inject_Z 2800 * (1 # 100)) with (2800 # 100) in G6.
  repeat split; lra.
Qed.

Lemma handle_numeric ev st g :
  unit_draws g -> readings_ok st ->
  readings_ok (fst (handle ev st g)) /\
  kpis (fst (handle ev st g)) = kpis st.
Proof.
  intros Hg Hr.
  destruct ev;
    [ split; [now apply tick_readings_ok | cbn [handle]; now rewrite tick_run]
    | split; [exact Hr | reflexivity] ..
    | cbn [handle]; rewrite resetHistory_run; split; [exact Hr | reflexivity] ].
Qed.

Lemma render_numeric st g :
  unit_draws g -> readings_ok st -> kpis_ok (kpis st) ->
  readings_ok (fst (render st g)) /\ kpis_ok (kpis (fst (render st g))).
Proof.
  intros Hg Hr Hk. unfold render.
  destruct (areHookInputsEqual (kpiDeps st) (kpisDeps st)).
  - now split.
  - rewrite bind_run. cbn [ret fst]. split; [exact Hr |].
    cbn [kpis].
    destruct Hr as (ti & to & fl & pr & lv & (Eti & Eto & _) & (_ & _ & Hd) & _).
    rewrite Eti, Eto. now apply computeKpis_ok.
Qed.

Lemma mount_readings g :
  (tIn (fst (mount g)) = Fin 72 /\ tOut (fst (mount g)) = Fin 30 /\
   flow (fst (mount g)) = Fin 150 /\ press (fst (mount g)) = Fin 2.1 /\
   level (fst (mount g)) = Fin 60) /\
  kpis (fst (mount g)) = fst (computeKpis (Fin 72) (Fin 30) (advance 96 g)).
Proof.
  unfold mount. rewrite !bind_run, !genSeed_rng, !advance_advance.
  cbn [ret fst tIn tOut flow press level kpis]. repeat split.
Qed.

Lemma reachable_numeric st g :
  reachable st g -> unit_draws g ->
  readings_ok st /\ kpis_ok (kpis st).
Proof.
  induction 1 as [g | ev st g _ IH]; intros Hg.
  - rewrite mount_rng in Hg. apply unit_draws_advance in Hg.
    destruct (mount_readings g) as [(E1 & E2 & E3 & E4 & E5) Hk]. split.
    + exists 72, 30, 150, 2.1, 60. rewrite E1, E2, E3, E4, E5.
      split; [repeat split |]. repeat split; lra.
    + rewrite Hk. apply computeKpis_ok; [exact Hg | lra].
  - rewrite step_rng in Hg. apply unit_draws_advance in Hg.
    destruct (IH Hg) as [Hr Hk].
    destruct (handle_numeric ev st g Hg Hr) as [Hr' Hk'].
    unfold step. rewrite bind_run.
    apply render_numeric; [| exact Hr' | now rewrite Hk'].
    rewrite handle_rng. now apply unit_draws_advance.
Qed.


(** X10.  With draws in [0, 1), in every reachable state the KPIs on
    display are finite and in range: ΔT in [8, 42] (42 only before the
    first tick changes the readings), efficiency in [0.73, 0.85], COP in
    [2.5, 4.1]; the efficiency is shown as a whole percentage between 73
    and 85. *)
Theorem kpis_in_range (st : State) (g : Rng) :
  reachable st g -> unit_draws g ->
  kpis_ok (kpis st) /\
  exists p : Z,
    efficiencyPercent (kpis st) = Fin (inject_Z p) /\ (73 <= p <= 85)%Z.
Proof.
  intros H Hg. destruct (reachable_numeric st g H Hg) as [_ Hk].
  split; [exact Hk |].
  destruct Hk as (d & e & c & (_ & Ee & _) & _ & He & _).
  unfold efficiencyPercent. rewrite Ee. cbn [mul Math_round].
  exists (Qfloor (e * 100 + (1 # 2))). split; [reflexivity |].
  pose proof (Qfloor_le (e * 100 + (1 # 2))) as H1.
  pose proof (Qlt_floor (e * 100 + (1 # 2))) as H2.
  rewrite inject_Z_plus in H2. change (inject_Z 1) with 1 in H2.
  set (p := Qfloor (e * 100 + (1 # 2))) in *.
  split.
  - apply Z.lt_succ_r. rewrite Zlt_Qlt. unfold Z.succ.
    rewrite inject_Z_plus. change (inject_Z 1) with 1.
    change (inject_Z 73) with 73. lra.
  - apply Z.lt_succ_r. rewrite Zlt_Qlt. unfold Z.succ.
    rewrite inject_Z_plus. change (inject_Z 1) with 1.
    change (inject_Z 85) with 85. lra.
Qed.

(** ** What the other events leave alone *)

Lemma step_nontick ev st g :
  reachable st g -> is_tick ev = false ->
  fst (step ev st g) = fst (handle ev st g).
Proof.
  intros H Hev. unfold step. rewrite bind_run.
  rewrite render_idle; [reflexivity |].
  apply handle_settled; [exact Hev | exact (reachable_settled st g H)].
Qed.

(** X12.  In a reachable state, an event other than a tick changes neither
    the instant readings nor the KPIs.  Typing in a setpoint field changes
    the setpoints only: the alarm log is kept (only "Aplicar" clears it).
    A pump, fan or connection button changes flags only, and "Aplicar"
    changes the alarm log only. *)
Theorem non_tick_event_frame (ev : Event) (st : State) (g : Rng) :
  reachable st g -> is_tick ev = false ->
  let st' := fst (step ev st g) in
  (kpiDeps st' = kpiDeps st /\ kpis st' = kpis st) /\
  (forall f v, ev = Change f v ->
     setpoints st' = setField f (Number_value v) (setpoints st) /\
     alarms st' = alarms st /\ series st' = series st /\ flags st' = flags st) /\
  (is_flag_event ev = true ->
     setpoints st' = setpoints st /\ alarms st' = alarms st /\
     series st' = series st) /\
  (ev = Apply ->
     setpoints st' = setpoints st /\ series st' = series st /\
     flags st' = flags st).
Proof.
  intros H Hev st'. subst st'. rewrite (step_nontick ev st g H Hev).
  destruct (handle_idle_memo ev st g Hev) as (Hd & _ & Hk).
  split; [now split |]. split; [| split].
  - intros f v ->. repeat split.
  - intros Hflag. destruct ev; try discriminate Hflag; repeat split.
  - intros ->. repeat split.
Qed.

(** ** Flags *)

Lemma step_flags ev st g :
  flags (fst (step ev st g)) = flags (fst (handle ev st g)).
Proof. unfold step. rewrite bind_run. apply render_frame. Qed.

Lemma mount_flags g : flags (fst (mount g)) = [true; true; true; false].
Proof.
  unfold mount. rewrite !bind_run. reflexivity.
Qed.

Lemma handle_connection ev st g :
  ethConnected st = negb (modbusConnected st) ->
  ethConnected (fst (handle ev st g)) =
  negb (modbusConnected (fst (handle ev st g))).
Proof.
  intros H.
  destruct ev;
    [ cbn [handle]; rewrite tick_run; exact H
    | exact H | exact H | reflexivity | reflexivity | exact H | exact H
    | cbn [handle]; rewrite resetHistory_run; exact H ].
Qed.

(** X14.  In every reachable state exactly one of the two connection
    indicators is on: the component starts on EtherNet/IP and the two
    "Simular" buttons, the only writers, set the pair together. *)
Theorem one_connection_at_a_time (st : State) (g : Rng) :
  reachable st g ->
  ethConnected st = negb (modbusConnected st).
Proof.
  induction 1 as [g | ev st g _ IH].
  - pose proof (mount_flags g) as E. unfold flags in E.
    pose proof (f_equal (fun l => nth 2 l true) E) as E2.
    pose proof (f_equal (fun l => nth 3 l true) E) as E3.
    cbn [nth] in E2, E3. now rewrite E2, E3.
  - pose proof (step_flags ev st g) as E. unfold flags in E.
    pose proof (f_equal (fun l => nth 2 l true) E) as E2.
    pose proof (f_equal (fun l => nth 3 l true) E) as E3.
    cbn [nth] in E2, E3. rewrite E2, E3.
    now apply handle_connection.
Qed.

Lemma step_flag_event ev st g :
  reachable st g -> is_flag_event ev = true ->
  step ev st g = (fst (handle ev st g), g).
Proof.
  intros H Hev.
  assert (Hrun : handle ev st g = (fst (handle ev st g), g))
    by (destruct ev; try discriminate Hev; reflexivity).
  unfold step. rewrite bind_run. rewrite Hrun at 1 2. cbn [fst snd].
  apply render_idle. apply handle_settled; [| exact (reachable_settled st g H)].
  destruct ev; try discriminate Hev; reflexivity.
Qed.

Lemma togglePump_twice st : togglePump (togglePump st) = st.
Proof. destruct st. unfold togglePump, with_flags. cbn. now rewrite negb_involutive. Qed.

Lemma toggleFan_twice st : toggleFan (toggleFan st) = st.
Proof. destruct st. unfold toggleFan, with_flags. cbn. now rewrite negb_involutive. Qed.

(** X15.  In a reachable state, pressing the pump button twice, or the fan
    button twice, gives back the very same state and makes no draw;
    pressing a "Simular" button a second time changes nothing more. *)
Theorem buttons_twice (st : State) (g : Rng) :
  reachable st g ->
  run [TogglePump; TogglePump] st g = (st, g) /\
  run [ToggleFan; ToggleFan] st g = (st, g) /\
  run [SimulateEth; SimulateEth] st g = run [SimulateEth] st g /\
  run [SimulateModbus; SimulateModbus] st g = run [SimulateModbus] st g.
Proof.
  intros H.
  assert (R : forall ev, is_flag_event ev = true ->
                         reachable (fst (handle ev st g)) g).
  { intros ev Hev. pose proof (reach_step ev st g H) as R.
    now rewrite (step_flag_event ev st g H Hev) in R. }
  assert (T : forall ev1 ev2,
             is_flag_event ev1 = true -> is_flag_event ev2 = true ->
             run [ev1; ev2] st g =
             (fst (handle ev2 (fst (handle ev1 st g)) g), g)).
  { intros ev1 ev2 H1 H2. cbn [run]. rewrite bind_run.
    rewrite (step_flag_event ev1 st g H H1). cbn [fst snd].
    rewrite bind_run.
    rewrite (step_flag_event ev2 _ g (R ev1 H1) H2). reflexivity. }
  assert (U : forall ev, is_flag_event ev = true ->
                         run [ev] st g = (fst (handle ev st g), g)).
  { intros ev Hev. cbn [run]. rewrite bind_run.
    now rewrite (step_flag_event ev st g H Hev). }
  repeat split.
  - rewrite T by reflexivity. cbn [handle ret fst]. now rewrite togglePump_twice.
  - rewrite T by reflexivity. cbn [handle ret fst]. now rewrite toggleFan_twice.
  - rewrite T, U by reflexivity. reflexivity.
  - rewrite T, U by reflexivity. reflexivity.
Qed.

(** ** The alarm log as a history *)

Lemma Forall_firstn {A : Type} (P : A -> Prop) (n : nat) (l : list A) :
  Forall P l -> Forall P (firstn n l).
Proof.
  intros H. rewrite <- (firstn_skipn n l) in H.
  now apply Forall_app in H.
Qed.

Lemma firstn_app_firstn {A : Type} (n : nat) (a b : list A) :
  firstn n (a ++ firstn n b) = firstn n (a ++ b).
Proof.
  rewrite !firstn_app, firstn_firstn. do 2 f_equal. lia.
Qed.

(** X16.  After any run of ticks from a reachable state, the log is the
    first 40 entries of the alarms raised by those ticks, most recent tick
    first and in rule order within a tick, followed by the alarms that were
    there before: it always shows the 40 most recent alarms. *)
Theorem tick_log_history (times : list string) (st : State) (g : Rng) :
  reachable st g ->
  alarms (fst (run (map Tick times) st g)) =
  firstn 40 (tickHistory times st g ++ alarms st).
Proof.
  revert st g. induction times as [| t times IH]; intros st g H.
  - cbn [map run ret fst tickHistory app]. symmetry.
    apply firstn_all2. exact (reachable_alarms_bound st g H).
  - cbn [map run]. rewrite bind_run.
    rewrite IH by (apply reach_step; exact H).
    rewrite step_tick_alarms. cbn [tickHistory]. cbv zeta.
    now rewrite firstn_app_firstn, <- app_assoc.
Qed.

Lemma mount_alarms g : alarms (fst (mount g)) = [].
Proof. unfold mount. rewrite !bind_run. reflexivity. Qed.

Lemma newAlarms_wellformed sp time s :
  Forall (fun a => In (Alarm.type a) alarmKinds /\
                   round2 (Alarm.value a) = Alarm.value a /\
                   Alarm.time a = time)
         (newAlarms sp time s).
Proof.
  rewrite newAlarms_rules. unfold alarms_of_rules.
  apply Forall_forall. intros a Ha. apply in_map_iff in Ha.
  destruct Ha as (r & <- & Hr). apply filter_In in Hr. destruct Hr as [Hr _].
  cbn [Alarm.type Alarm.value Alarm.time]. split; [| split].
  - cbn [rule_table In] in Hr.
    destruct Hr as [<- | [<- | [<- | [<- | [<- | []]]]]];
      cbn [kind alarmKinds In]; auto 6.
  - apply round2_idem.
  - reflexivity.
Qed.

(** X17.  Every alarm in the log of a reachable state carries one of the
    five alarm names, and a value that rounding to two decimals leaves
    unchanged. *)
Theorem alarm_log_wellformed (st : State) (g : Rng) :
  reachable st g ->
  Forall (fun a => In (Alarm.type a) alarmKinds /\
                   round2 (Alarm.value a) = Alarm.value a)
         (alarms st).
Proof.
  induction 1 as [g | ev st g _ IH].
  - rewrite mount_alarms. constructor.
  - destruct ev;
      [ rewrite step_tick_alarms
      | rewrite step_alarms; exact IH ..
      | rewrite step_alarms; constructor
      | rewrite step_alarms; cbn [handle]; rewrite resetHistory_run; exact IH ].
    apply Forall_firstn, Forall_app. split; [| exact IH].
    eapply Forall_impl; [| apply newAlarms_wellformed].
    cbv beta. tauto.
Qed.

(** ** Seed values *)

Lemma genSeed_in_range n avg vari lo hi g :
  unit_draws g -> 0 <= vari ->
  lo == avg - vari * (1 # 2) -> hi == avg + vari * (1 # 2) ->
  0 <= lo -> hi < 10 ^ 21 ->
  round2_mag lo == lo -> round2_mag hi == hi ->
  values_in lo hi (fst (genSeed n (Fin avg) (Fin vari) g)).
Proof.
  intros Hg Hv Elo Ehi Hlo Hhi Rlo Rhi. rewrite genSeed_run. cbn [fst].
  apply Forall_forall. intros p Hp. apply in_map_iff in Hp.
  destruct Hp as (j & <- & _).
  unfold seed_point, seed_value. cbn [Point.value sub neg add mul].
  set (u := (draws g (pos g + j) + - 0.5) * vari).
  destruct (centred_draw_bounds (draws g (pos g + j)) vari (Hg _) Hv)
    as [Hu _].
  fold u in Hu.
  assert (E : vari / 2 == vari * (1 # 2)) by field.
  rewrite E in Hu.
  apply round2_in_range; try assumption.
  change (lo <= avg + u <= hi). split; lra.
Qed.

Lemma seeds_in_range g :
  unit_draws g ->
  values_in 27 33 (nth 0 (seeds g) []) /\
  values_in 130 160 (nth 1 (seeds g) []) /\
  values_in 1.8 2.4 (nth 2 (seeds g) []) /\
  values_in 51 69 (nth 3 (seeds g) []).
Proof.
  intros Hg. unfold seeds. cbn [nth].
  assert (Hbig : 160 < 10 ^ 21) by reflexivity.
  repeat split;
    apply genSeed_in_range;
    try (apply unit_draws_advance; exact Hg); try exact Hg;
    try reflexivity; try lra; try discriminate.
Qed.

(** X18.  For draws in [0, 1), every value of the seeds made at startup and
    by a history reset lies in the range [avg - vari/2, avg + vari/2] of
    its call: temperature in [27, 33], flow in [130, 160], pressure in
    [1.8, 2.4], level in [51, 69]. *)
Theorem seed_values_in_range (st : State) (g : Rng) :
  unit_draws g ->
  seeded_ranges (fst (mount g)) /\
  seeded_ranges (fst (step ResetHistory st g)).
Proof.
  intros Hg. destruct (seeds_in_range g Hg) as (R0 & R1 & R2 & R3).
  assert (S : forall st', series st' = seeds g -> seeded_ranges st').
  { intros st' E. unfold series in E. unfold seeded_ranges.
    pose proof (f_equal (fun l => nth 0 l []) E) as E0.
    pose proof (f_equal (fun l => nth 1 l []) E) as E1.
    pose proof (f_equal (fun l => nth 2 l []) E) as E2.
    pose proof (f_equal (fun l => nth 3 l []) E) as E3.
    cbn [nth] in E0, E1, E2, E3.
    rewrite E0, E1, E2, E3. now repeat split. }
  split; apply S.
  - apply mount_series.
  - rewrite step_series. cbn [handle]. rewrite resetHistory_run.
    unfold seeds. reflexivity.
Qed.

(** * Further instances *)

Lemma mounted_reachable :
  reachable (fst (mount half_draws)) (snd (mount half_draws)).
Proof. apply reach_mount. Defined.

Lemma mounted_unit_draws : unit_draws (snd (mount half_draws)).
Proof. rewrite mount_rng. exact half_draws_unit. Defined.

Lemma pushSeries_capacity_witness :
  (2 <= 3)%Z /\
  List.length (pushSeries demo_points (Point.mk "t" NaN) 3) =
  Nat.min (List.length demo_points + 1) (Z.to_nat 3).
Proof.
  assert (H : (2 <= 3)%Z) by lia.
  split; [exact H |].
  exact (proj2 (pushSeries_capacity demo_points (Point.mk "t" NaN) 3 H)).
Defined.

Lemma pushSeries_small_max_witness :
  (-2 <= 0)%Z /\
  pushSeries demo_points (Point.mk "t" NaN) (-2) =
  skipn (Z.to_nat (1 - -2)) demo_points ++ [Point.mk "t" NaN].
Proof.
  assert (H : (-2 <= 0)%Z) by lia.
  split; [exact H |].
  exact (proj2 (pushSeries_small_max demo_points (Point.mk "t" NaN)) (-2)%Z H).
Defined.

Lemma series_lengths_witness :
  reachable (fst (mount half_draws)) (snd (mount half_draws)) /\
  exists n,
    map (@List.length Point.t) (series (fst (mount half_draws))) = [n; n; n; n] /\
    (24 <= n <= 40)%nat.
Proof.
  split; [exact mounted_reachable |].
  exact (proj1 (series_lengths _ _ mounted_reachable)).
Defined.

Lemma recent_points_witness :
  reachable (fst (mount half_draws)) (snd (mount half_draws)) /\
  Forall (fun s => List.length (recent s) = 5%nat /\
                   recent s = skipn (List.length s - 5) s)
         (series (fst (mount half_draws))).
Proof.
  split; [exact mounted_reachable |].
  exact (proj1 (recent_points _ _ mounted_reachable)).
Defined.

Lemma sample_ranges_witness :
  unit_draws half_draws /\
  in_range 120 180 (newFlow (fst (sample half_draws))).
Proof.
  split; [exact half_draws_unit |].
  exact (proj1 (proj2 (sample_ranges half_draws half_draws_unit))).
Defined.

Lemma setpoints_out_of_reach_witness :
  unit_draws half_draws /\ 20 <= 30 /\
  ~ In "Nível Baixo"%string
      (map Alarm.type
           (newAlarms initialSetpoints "t" (fst (sample half_draws)))).
Proof.
  assert (H : 20 <= 30) by discriminate.
  split; [exact half_draws_unit |]. split; [exact H |].
  destruct (setpoints_out_of_reach half_draws 78 130 2.4 20 90 "t"
              half_draws_unit) as (_ & _ & _ & K & _).
  exact (K H).
Defined.

Lemma level_rules_overlap_witness :
  let s := mkSample NaN NaN NaN NaN NaN (Fin 50) in
  let sp := mkSetpoints NaN NaN NaN (Fin 60) (Fin 40) in
  (newLevel s = Fin 50 /\ levelLow sp = Fin 60 /\ levelHigh sp = Fin 40) /\
  (40 < 50 /\ 50 < 60) /\
  In "Nível Baixo"%string (map Alarm.type (newAlarms sp "t" s)) /\
  In "Nível Alto"%string (map Alarm.type (newAlarms sp "t" s)).
Proof.
  intros s sp.
  assert (H : 40 < 50 /\ 50 < 60) by (split; reflexivity).
  split; [repeat split |]. split; [exact H |].
  exact (proj2 (proj1 (level_rules_overlap sp "t" s 50 60 40
                         eq_refl eq_refl eq_refl)) H).
Defined.


Lemma kpis_in_range_witness :
  reachable (fst (mount half_draws)) (snd (mount half_draws)) /\
  unit_draws (snd (mount half_draws)) /\
  kpis_ok (kpis (fst (mount half_draws))).
Proof.
  split; [exact mounted_reachable |]. split; [exact mounted_unit_draws |].
  exact (proj1 (kpis_in_range _ _ mounted_reachable mounted_unit_draws)).
Defined.

Lemma draw_budget_witness :
  reachable (fst (mount half_draws)) (snd (mount half_draws)) /\
  is_tick ResetHistory = false /\
  snd (step ResetHistory (fst (mount half_draws)) (snd (mount half_draws))) =
  advance 96 (snd (mount half_draws)).
Proof.
  split; [exact mounted_reachable |]. split; [reflexivity |].
  destruct (draw_budget ResetHistory _ _ mounted_reachable) as (_ & _ & K).
  exact (K eq_refl).
Defined.

Lemma non_tick_event_frame_witness :
  reachable (fst (mount half_draws)) (snd (mount half_draws)) /\
  is_tick (Change TempHigh Blank) = false /\
  alarms (fst (step (Change TempHigh Blank) (fst (mount half_draws))
                    (snd (mount half_draws)))) =
  alarms (fst (mount half_draws)).
Proof.
  split; [exact mounted_reachable |]. split; [reflexivity |].
  destruct (non_tick_event_frame (Change TempHigh Blank) _ _ mounted_reachable
              eq_refl) as (_ & K & _).
  exact (proj1 (proj2 (K TempHigh Blank eq_refl))).
Defined.

Lemma run_without_flag_events_witness :
  let a := fst (mount half_draws) in
  let g := snd (mount half_draws) in
  same_engine a a /\ settled a /\
  same_engine (fst (run [TogglePump; Tick "t"; SimulateModbus] a g))
              (fst (run [Tick "t"] a g)) /\
  snd (run [TogglePump; Tick "t"; SimulateModbus] a g) =
  snd (run [Tick "t"] a g).
Proof.
  intros a g.
  assert (H : same_engine a a) by reflexivity.
  assert (S : settled a) by apply mount_settled.
  split; [exact H |]. split; [exact S |].
  exact (run_without_flag_events [TogglePump; Tick "t"; SimulateModbus]
           a a g H S).
Defined.

Lemma one_connection_at_a_time_witness :
  reachable (fst (mount half_draws)) (snd (mount half_draws)) /\
  ethConnected (fst (mount half_draws)) =
  negb (modbusConnected (fst (mount half_draws))).
Proof.
  split; [exact mounted_reachable |].
  exact (one_connection_at_a_time _ _ mounted_reachable).
Defined.

Lemma buttons_twice_witness :
  reachable (fst (mount half_draws)) (snd (mount half_draws)) /\
  run [TogglePump; TogglePump] (fst (mount half_draws)) (snd (mount half_draws)) =
  (fst (mount half_draws), snd (mount half_draws)).
Proof.
  split; [exact mounted_reachable |].
  exact (proj1 (buttons_twice _ _ mounted_reachable)).
Defined.

Lemma tick_log_history_witness :
  let st := fst (mount half_draws) in
  let g := snd (mount half_draws) in
  reachable st g /\
  alarms (fst (run (map Tick ["t1"; "t2"]%string) st g)) =
  firstn 40 (tickHistory ["t1"; "t2"]%string st g ++ alarms st).
Proof.
  intros st g. split; [exact mounted_reachable |].
  exact (tick_log_history ["t1"; "t2"]%string st g mounted_reachable).
Defined.

Lemma alarm_log_wellformed_witness :
  reachable (fst (mount half_draws)) (snd (mount half_draws)) /\
  Forall (fun a => In (Alarm.type a) alarmKinds /\
                   round2 (Alarm.value a) = Alarm.value a)
         (alarms (fst (mount half_draws))).
Proof.
  split; [exact mounted_reachable |].
  exact (alarm_log_wellformed _ _ mounted_reachable).
Defined.

Lemma seed_values_in_range_witness :
  unit_draws half_draws /\
  seeded_ranges (fst (mount half_draws)).
Proof.
  split; [exact half_draws_unit |].
  exact (proj1 (seed_values_in_range (fst (mount half_draws)) half_draws
                  half_draws_unit)).
Defined.

(** * Further properties, continued *)

(** ** The series as windows on the history *)

Lemma run_ticks_series times : forall st g,
  series (fst (run (map Tick times) st g)) =
  [ pushAll (tempSeries st) (map (tickPoint newTempAvg) (tickSamples times st g));
    pushAll (flowSeries st) (map (tickPoint newFlow) (tickSamples times st g));
    pushAll (pressSeries st) (map (tickPoint newPress) (tickSamples times st g));
    pushAll (levelSeries st) (map (tickPoint newLevel) (tickSamples times st g)) ].
Proof.
  induction times as [| t times IH]; intros st g; [reflexivity |].
  cbn [map run]. rewrite bind_run, IH. cbn [tickSamples map]. cbv zeta.
  pose proof (step_series (Tick t) st g) as E. cbn [handle] in E.
  rewrite tick_series in E. cbv zeta in E. unfold series in E.
  pose proof (f_equal (fun l => nth 0 l []) E) as E0.
  pose proof (f_equal (fun l => nth 1 l []) E) as E1.
  pose proof (f_equal (fun l => nth 2 l []) E) as E2.
  pose proof (f_equal (fun l => nth 3 l []) E) as E3.
  cbn [nth] in E0, E1, E2, E3. rewrite E0, E1, E2, E3. reflexivity.
Qed.

Lemma tickSamples_times times : forall st g (f : Sample -> num),
  map Point.time (map (tickPoint f) (tickSamples times st g)) = times.
Proof.
  induction times as [| t times IH]; intros st g f; [reflexivity |].
  cbn [tickSamples map]. cbv zeta. now rewrite IH.
Qed.

(** X19.  After any run of ticks from a reachable state, each series is the
    last 40 points of its previous contents followed by the points of those
    ticks, in order: the eviction of [pushSeries] composes over the run.
    After 40 ticks or more no earlier point is left and the four series
    carry the labels of the last 40 ticks. *)
Theorem series_after_ticks (times : list string) (st : State) (g : Rng) :
  reachable st g ->
  let samples := tickSamples times st g in
  series (fst (run (map Tick times) st g)) =
  [ lastn 40 (tempSeries st ++ map (tickPoint newTempAvg) samples);
    lastn 40 (flowSeries st ++ map (tickPoint newFlow) samples);
    lastn 40 (pressSeries st ++ map (tickPoint newPress) samples);
    lastn 40 (levelSeries st ++ map (tickPoint newLevel) samples) ] /\
  ((40 <= List.length times)%nat ->
   map (map Point.time) (series (fst (run (map Tick times) st g))) =
   [lastn 40 times; lastn 40 times; lastn 40 times; lastn 40 times]).
Proof.
  intros H samples.
  pose proof (reachable_series_bound st g H) as Hb. unfold series in Hb.
  inversion_clear Hb as [| ? ? B0 Hb1]. inversion_clear Hb1 as [| ? ? B1 Hb2].
  inversion_clear Hb2 as [| ? ? B2 Hb3]. inversion_clear Hb3 as [| ? ? B3 _].
  assert (E : series (fst (run (map Tick times) st g)) =
              [ lastn 40 (tempSeries st ++ map (tickPoint newTempAvg) samples);
                lastn 40 (flowSeries st ++ map (tickPoint newFlow) samples);
                lastn 40 (pressSeries st ++ map (tickPoint newPress) samples);
                lastn 40 (levelSeries st ++ map (tickPoint newLevel) samples) ]).
  { rewrite run_ticks_series. fold samples. unfold lastn.
    now rewrite !pushAll_window by assumption. }
  split; [exact E |].
  intros Hlen. rewrite E. cbn [map].
  assert (W : forall (s : list Point.t) f,
             map Point.time (lastn 40 (s ++ map (tickPoint f) samples)) =
             lastn 40 times).
  { intros s f. unfold lastn. rewrite <- skipn_map, map_app.
    subst samples. rewrite tickSamples_times.
    rewrite !length_app, !length_map.
    assert (Ls : List.length (tickSamples times st g) = List.length times).
    { rewrite <- (tickSamples_times times st g f) at 2.
      now rewrite !length_map. }
    rewrite Ls, skipn_app, length_map.
    rewrite skipn_all2 by (rewrite length_map; lia).
    cbn [app]. f_equal. lia. }
  now rewrite !W.
Qed.

Lemma seed_times n avg vari g :
  map Point.time (fst (genSeed n avg vari g)) = map string_of_index (seq 0 n).
Proof. rewrite genSeed_run. cbn [fst]. now rewrite map_map. Qed.

Lemma seeds_times g :
  map (map Point.time) (seeds g) =
  [ map string_of_index (seq 0 24); map string_of_index (seq 0 24);
    map string_of_index (seq 0 24); map string_of_index (seq 0 24) ].
Proof. unfold seeds. cbn [map]. now rewrite !seed_times. Qed.

Lemma pushSeries_times s point :
  map Point.time (pushSeries s point max_default) =
  skipn (List.length (map Point.time s) - 39) (map Point.time s)
  ++ [Point.time point].
Proof.
  rewrite pushSeries_default, map_app, <- skipn_map, length_map. reflexivity.
Qed.

(** X20.  In every reachable state the four series carry the same list of
    time labels: the four charts share one time axis, be it the indices of
    a seed, the labels of ticks, or a mix of both. *)
Theorem series_share_time_axis (st : State) (g : Rng) :
  reachable st g ->
  exists labels,
    map (map Point.time) (series st) = [labels; labels; labels; labels].
Proof.
  induction 1 as [g | ev st g _ IH].
  - eexists. rewrite mount_series. apply seeds_times.
  - destruct IH as (labels & E). rewrite step_series.
    destruct ev;
      [
      | exists labels; exact E ..
      | eexists; cbn [handle]; rewrite resetHistory_run; apply seeds_times ].
    exists (skipn (List.length labels - 39) labels ++ [time]).
    cbn [handle]. rewrite tick_series. cbv zeta. cbn [map].
    rewrite !pushSeries_times. cbn [Point.time].
    unfold series in E. cbn [map] in E.
    pose proof (f_equal (fun l => nth 0 l []) E) as E0.
    pose proof (f_equal (fun l => nth 1 l []) E) as E1.
    pose proof (f_equal (fun l => nth 2 l []) E) as E2.
    pose proof (f_equal (fun l => nth 3 l []) E) as E3.
    cbn [nth] in E0, E1, E2, E3. now rewrite E0, E1, E2, E3.
Qed.

(** ** ΔT agrees with the temperatures on display *)

Lemma handle_memo ev st g :
  kpisDeps (fst (handle ev st g)) = kpisDeps st /\
  kpis (fst (handle ev st g)) = kpis st.
Proof.
  destruct ev;
    [ cbn [handle]; rewrite tick_run; split; reflexivity
    | split; reflexivity ..
    | cbn [handle]; rewrite resetHistory_run; split; reflexivity ].
Qed.

Lemma mount_memo g :
  kpisDeps (fst (mount g)) = [Fin 72; Fin 30; Fin 150; Fin 2.1; Fin 60].
Proof.
  unfold mount. rewrite !bind_run. reflexivity.
Qed.

(** The ΔT in the memo is the one computed from the remembered readings. *)
Lemma reachable_memo_dt st g :
  reachable st g ->
  exists d0 d1 rest,
    kpisDeps st = d0 :: d1 :: rest /\ dt (kpis st) = round2 (sub d0 d1).
Proof.
  induction 1 as [g | ev st g _ IH].
  - exists (Fin 72), (Fin 30), [Fin 150; Fin 2.1; Fin 60].
    split; [apply mount_memo |].
    destruct (mount_readings g) as [_ Hk]. rewrite Hk.
    apply (computeKpis_fields (Fin 72) (Fin 30)).
  - destruct IH as (d0 & d1 & rest & Ed & Edt).
    destruct (handle_memo ev st g) as [Hd Hk].
    unfold step. rewrite bind_run.
    set (st1 := fst (handle ev st g)) in *.
    set (g1 := snd (handle ev st g)).
    unfold render.
    destruct (areHookInputsEqual (kpiDeps st1) (kpisDeps st1)).
    + exists d0, d1, rest. cbn [ret fst]. now rewrite Hd, Hk.
    + rewrite bind_run. cbn [ret fst kpisDeps kpis].
      exists (tIn st1), (tOut st1), [flow st1; press st1; level st1].
      split; [reflexivity |].
      apply (computeKpis_fields (tIn st1) (tOut st1)).
Qed.

Lemma Object_is_Fin q y :
  Object_is (Fin q) y = true -> exists q', y = Fin q' /\ q == q'.
Proof.
  destruct y as [| | | q']; try discriminate.
  cbn. intros H. exists q'. split; [reflexivity | now apply Qeq_bool_iff].
Qed.

(** X21.  With draws in [0, 1), in every reachable state the ΔT on display
    is the one computed from the two temperatures on display,
    [Number((tIn - tOut).toFixed(2))], also when the memo was kept: the memo
    is kept only when no reading changed. *)
Theorem delta_t_matches_display (st : State) (g : Rng) :
  reachable st g -> unit_draws g ->
  dt (kpis st) = round2 (sub (tIn st) (tOut st)).
Proof.
  intros H Hg.
  destruct (reachable_memo_dt st g H) as (d0 & d1 & rest & Ed & Edt).
  destruct (reachable_numeric st g H Hg) as [Hr _].
  destruct Hr as (ti & to & fl & pr & lv & (Eti & Eto & _) & (_ & _ & Hd) & _).
  pose proof (reachable_settled st g H) as Hs.
  unfold settled, kpiDeps in Hs. rewrite Ed in Hs. cbn [areHookInputsEqual] in Hs.
  apply andb_true_iff in Hs. destruct Hs as [O0 Hs].
  apply andb_true_iff in Hs. destruct Hs as [O1 _].
  rewrite Eti in O0. rewrite Eto in O1.
  apply Object_is_Fin in O0. destruct O0 as (ti0 & -> & Q0).
  apply Object_is_Fin in O1. destruct O1 as (to0 & -> & Q1).
  assert (Hbig : 42 < 10 ^ 21) by reflexivity.
  rewrite Edt, Eti, Eto. cbn [sub neg add].
  rewrite !round2_nonneg by lra.
  f_equal. apply round2_mag_comp. now rewrite Q0, Q1.
Qed.

Lemma series_after_ticks_witness :
  let st := fst (mount half_draws) in
  let g := snd (mount half_draws) in
  reachable st g /\
  series (fst (run (map Tick ["t1"; "t2"]%string) st g)) =
  [ lastn 40 (tempSeries st
              ++ map (tickPoint newTempAvg) (tickSamples ["t1"; "t2"]%string st g));
    lastn 40 (flowSeries st
              ++ map (tickPoint newFlow) (tickSamples ["t1"; "t2"]%string st g));
    lastn 40 (pressSeries st
              ++ map (tickPoint newPress) (tickSamples ["t1"; "t2"]%string st g));
    lastn 40 (levelSeries st
              ++ map (tickPoint newLevel) (tickSamples ["t1"; "t2"]%string st g)) ].
Proof.
  intros st g. split; [exact mounted_reachable |].
  exact (proj1 (series_after_ticks ["t1"; "t2"]%string st g mounted_reachable)).
Defined.

Lemma series_share_time_axis_witness :
  reachable (fst (mount half_draws)) (snd (mount half_draws)) /\
  exists labels,
    map (map Point.time) (series (fst (mount half_draws))) =
    [labels; labels; labels; labels].
Proof.
  split; [exact mounted_reachable |].
  exact (series_share_time_axis _ _ mounted_reachable).
Defined.

Lemma delta_t_matches_display_witness :
  reachable (fst (mount half_draws)) (snd (mount half_draws)) /\
  unit_draws (snd (mount half_draws)) /\
  dt (kpis (fst (mount half_draws))) =
  round2 (sub (tIn (fst (mount half_draws))) (tOut (fst (mount half_draws)))).
Proof.
  split; [exact mounted_reachable |]. split; [exact mounted_unit_draws |].
  exact (delta_t_matches_display _ _ mounted_reachable mounted_unit_draws).
Defined.

(** * Setpoint entry *)

Lemma mount_setpoints g : setpoints (fst (mount g)) = initialSetpoints.
Proof. unfold mount. rewrite !bind_run. reflexivity. Qed.

Lemma setField_finite f v s :
  isFinite v = true ->
  (forall f', isFinite (getField f' s) = true) ->
  forall f', isFinite (getField f' (setField f v s)) = true.
Proof.
  intros Hv Hs f'.
  pose proof (Hs TempHigh). pose proof (Hs FlowLow). pose proof (Hs PressHigh).
  pose proof (Hs LevelLow). pose proof (Hs LevelHigh).
  destruct f, f'; cbn [setField getField tempHigh flowLow pressHigh levelLow
                        levelHigh] in *; assumption.
Qed.

Lemma Number_value_finite value : isFinite (Number_value value) = true.
Proof. now destruct value. Qed.

(** Every setpoint of a reachable state is a finite number. *)
Lemma reachable_setpoints_finite st g :
  reachable st g -> forall f, isFinite (getField f (setpoints st)) = true.
Proof.
  induction 1 as [g | ev st g _ IH].
  - rewrite mount_setpoints. now intros [].
  - rewrite step_setpoints.
    destruct ev;
      [ cbn [handle]; rewrite tick_run; exact IH
      | exact IH | exact IH | exact IH | exact IH
      | cbn [handle ret fst onChange with_setpoints setpoints];
        apply setField_finite; [apply Number_value_finite | exact IH]
      | exact IH
      | cbn [handle]; rewrite resetHistory_run; exact IH ].
Qed.

Lemma change_apply_setpoints f value st g :
  setpoints (fst (run [Change f value; Apply] st g)) =
  setField f (Number_value value) (setpoints st).
Proof.
  cbn [run]. rewrite !bind_run. cbn [ret fst].
  rewrite step_setpoints. cbn [handle ret fst].
  rewrite applySetpoints_setpoints, step_setpoints. reflexivity.
Qed.

(** C4, as the code has it.  What is entered in a setpoint field is stored
    as [Number(e.target.value)] gives it, the other four setpoints being
    kept, and "Aplicar" does not touch the setpoints: nothing is rejected.
    Text that is not a number reaches the handler as the empty string and
    is stored as 0 in place of the previous value.  Since the field only
    ever delivers the empty string or a finite literal, every setpoint
    stays finite, so no rule is ever evaluated against NaN or an infinity;
    but with 0 stored in [tempHigh] the temperature rule fires on every
    tick, whatever the draws in [0, 1). *)
Theorem setpoint_entry_is_stored (f : Field) (value : InputValue)
        (st : State) (g : Rng) :
  reachable st g ->
  let st' := fst (run [Change f value; Apply] st g) in
  (setpoints st' = setField f (Number_value value) (setpoints st) /\
   getField f (setpoints st') = Number_value value) /\
  (value = Blank -> getField f (setpoints st') = Fin 0) /\
  setpoints (fst (step Apply st g)) = setpoints st /\
  (forall f', isFinite (getField f' (setpoints st')) = true) /\
  (forall time g',
      unit_draws g' -> value = Blank -> f = TempHigh ->
      In "Alta Temperatura"%string
         (map Alarm.type (newAlarms (setpoints st') time (fst (sample g'))))).
Proof.
  intros H st'.
  assert (E : setpoints st' = setField f (Number_value value) (setpoints st))
    by apply change_apply_setpoints.
  assert (G : getField f (setpoints st') = Number_value value)
    by (rewrite E; now destruct f).
  split; [now split |]. split; [| split; [| split]].
  - intros ->. exact G.
  - now rewrite step_setpoints.
  - rewrite E. apply setField_finite; [apply Number_value_finite |].
    exact (reachable_setpoints_finite st g H).
  - intros time g' Hg' -> ->.
    destruct (fired_kinds (setpoints st') time (fst (sample g'))) as (K & _).
    apply K. cbn [getField Number_value] in G. rewrite G.
    destruct (sample_bounds g' Hg') as (_ & (ta & Eta & Hta) & _).
    rewrite Eta. unfold gt. apply lt_Fin. lra.
Qed.

(** The claim C4 fails on the code: when text that is not a number is typed
    in the field of [tempHigh], the field delivers the empty string; after
    "Aplicar" the setpoint is 0, not the 78 it was, and a following tick
    that reads tempAvg = 137/2 = 68.5 raises the temperature alarm, which it does
    not raise against 78. *)
Lemma blank_entry_overwrites_setpoint :
  let st := fst (mount example_draws) in
  let g := snd (mount example_draws) in
  let st' := fst (run [Change TempHigh Blank; Apply] st g) in
  tempHigh (setpoints st) = Fin 78 /\
  tempHigh (setpoints st') = Fin 0 /\
  tempHigh (setpoints st') <> tempHigh (setpoints st) /\
  alarms (fst (step (Tick "t") st' half_draws)) =
  [Alarm.mk "Alta Temperatura" (Fin (137 # 2)) "t"] /\
  alarms (fst (step (Tick "t") st half_draws)) = [].
Proof.
  vm_compute. repeat split; congruence.
Qed.

Lemma setpoint_entry_is_stored_witness :
  let st := fst (mount half_draws) in
  let g := snd (mount half_draws) in
  let st' := fst (run [Change TempHigh Blank; Apply] st g) in
  reachable st g /\
  (unit_draws half_draws /\ Blank = Blank /\ TempHigh = TempHigh) /\
  tempHigh (setpoints st') = Fin 0 /\
  In "Alta Temperatura"%string
     (map Alarm.type (newAlarms (setpoints st') "t" (fst (sample half_draws)))).
Proof.
  intros st g st'.
  destruct (setpoint_entry_is_stored TempHigh Blank st g mounted_reachable)
    as (_ & Hzero & _ & _ & Hfire).
  split; [exact mounted_reachable |].
  split; [split; [exact half_draws_unit | split; reflexivity] |].
  split; [exact (Hzero eq_refl) |].
  exact (Hfire "t"%string half_draws half_draws_unit eq_refl eq_refl).
Defined.
